(** * whatsmeow: the Noise handshake driver and the SQL store migrator

    A shallow embedding of [doHandshake] (handshake.go), of the [Device]
    record it fills in (store/store.go) and of the schema migrator
    (store/sqlstore/upgrade.go), followed by the properties proved of them.

    Everything the Go code calls but does not define (protobuf
    marshalling, the frame socket, the Noise primitives, key generation,
    the SQL driver) is a parameter or an explicit oracle, so every theorem
    holds for whatever these collaborators answer. *)

From Stdlib Require Import String Ascii ZArith Bool Lia Arith List.
From Stdlib Require Import Strings.Byte DecimalString.
Import ListNotations.

Set Implicit Arguments.

(* ================================================================== *)
(** * Part I: handshake.go                                              *)
(* ================================================================== *)

Module Handshake.

(** Go's [[]byte]; a slice that may be [nil] is an [option bytes]. *)
Definition bytes := list byte.

(** Go's [error] values coming out of the libraries: their message. *)
Definition error := string.

Definition bytes_eqb (a b : bytes) : bool :=
  if list_eq_dec Byte.byte_eq_dec a b then true else false.

(** [len] of a possibly nil slice: [len(nil) = 0]. *)
Definition len (b : option bytes) : nat :=
  match b with
  | Some l => length l
  | None => 0
  end.

(** [bytes.Equal]: a nil slice and an empty slice are equal. *)
Definition bytes_Equal (a b : option bytes) : bool :=
  bytes_eqb (match a with Some l => l | None => [] end)
            (match b with Some l => l | None => [] end).

(** Go's [copy(dst, src)] as a value: the first [min(len)] bytes of
    [dst] are replaced, the length of [dst] never changes. *)
Definition copy (dst src : bytes) : bytes :=
  firstn (length dst) src ++ skipn (length src) dst.

(** [make([]byte, n)]. *)
Definition make (n : nat) : bytes := repeat Byte.x00 n.

Definition to_uint32 (z : Z) : Z := (z mod 4294967296)%Z.

(** ** store/store.go: the key material of a [Device] *)

(** [keys.KeyPair]: [Pub] and [Priv] are [*[32]byte]. *)
Record KeyPair := mkKeyPair { Pub : bytes; Priv : bytes }.

(** [keys.PreKey]: an embedded [KeyPair], a key id and a signature. *)
Record PreKey := mkPreKey {
  PreKey_KeyPair : KeyPair;
  KeyID : Z;
  Signature : option bytes
}.

(** [store.Device]: the fields that are data.  The capability
    interfaces ([Identities], [Sessions], ...) and the logger are not
    touched by the handshake and are left out. *)
Record Device := mkDevice {
  NoiseKey : option KeyPair;
  IdentityKey : option KeyPair;
  SignedPreKey : option PreKey;
  RegistrationID : Z;
  AdvSecretKey : option bytes;
  ID : option string;
  Platform : string;
  BusinessName : string;
  PushName : string;
  Initialized : bool
}.

Definition set_NoiseKey (d : Device) (k : KeyPair) : Device :=
  mkDevice (Some k) (IdentityKey d) (SignedPreKey d) (RegistrationID d)
    (AdvSecretKey d) (ID d) (Platform d) (BusinessName d) (PushName d)
    (Initialized d).

Definition set_IdentityKey (d : Device) (k : KeyPair) : Device :=
  mkDevice (NoiseKey d) (Some k) (SignedPreKey d) (RegistrationID d)
    (AdvSecretKey d) (ID d) (Platform d) (BusinessName d) (PushName d)
    (Initialized d).

Definition set_SignedPreKey (d : Device) (k : PreKey) : Device :=
  mkDevice (NoiseKey d) (IdentityKey d) (Some k) (RegistrationID d)
    (AdvSecretKey d) (ID d) (Platform d) (BusinessName d) (PushName d)
    (Initialized d).

Definition set_RegistrationID (d : Device) (r : Z) : Device :=
  mkDevice (NoiseKey d) (IdentityKey d) (SignedPreKey d) r
    (AdvSecretKey d) (ID d) (Platform d) (BusinessName d) (PushName d)
    (Initialized d).

Definition set_AdvSecretKey (d : Device) (k : bytes) : Device :=
  mkDevice (NoiseKey d) (IdentityKey d) (SignedPreKey d) (RegistrationID d)
    (Some k) (ID d) (Platform d) (BusinessName d) (PushName d)
    (Initialized d).

(** ** binary/proto: the messages of the handshake *)

Record ClientHello := mkClientHello { ClientHello_Ephemeral : option bytes }.

Record ServerHello := mkServerHello {
  ServerHello_Ephemeral : option bytes;
  ServerHello_Static : option bytes;
  ServerHello_Payload : option bytes
}.

Record ClientFinish := mkClientFinish {
  ClientFinish_Static : option bytes;
  ClientFinish_Payload : option bytes
}.

Record HandshakeMessage := mkHandshakeMessage {
  HM_ClientHello : option ClientHello;
  HM_ServerHello : option ServerHello;
  HM_ClientFinish : option ClientFinish
}.

Record NoiseCertificate := mkNoiseCertificate {
  Details : option bytes;
  Cert_Signature : option bytes
}.

Record NoiseCertificateDetails := mkNoiseCertificateDetails {
  Serial : option Z;
  Issuer : option string;
  Expires : option Z;
  Subject : option string;
  Key : option bytes
}.

(** The generated getters are nil-safe: a getter on an absent
    sub-message answers nil. *)
Definition GetServerHello (m : HandshakeMessage) : option ServerHello :=
  HM_ServerHello m.

Definition GetEphemeral (h : option ServerHello) : option bytes :=
  match h with Some x => ServerHello_Ephemeral x | None => None end.

Definition GetStatic (h : option ServerHello) : option bytes :=
  match h with Some x => ServerHello_Static x | None => None end.

Definition GetPayload (h : option ServerHello) : option bytes :=
  match h with Some x => ServerHello_Payload x | None => None end.

Definition GetDetails (c : NoiseCertificate) : option bytes := Details c.
Definition GetSignature (c : NoiseCertificate) : option bytes := Cert_Signature c.
Definition GetKey (d : NoiseCertificateDetails) : option bytes := Key d.

(** ** The errors [doHandshake] returns

    One constructor per [fmt.Errorf] of the function, in source order;
    the ones built with [%w] carry the wrapped cause. *)
Inductive HandshakeError :=
| ErrMarshalHandshake (cause : error)
| ErrSendHandshake (cause : error)
| ErrUnmarshalResponse (cause : error)
| ErrMissingParts
| ErrMixServerEphemeral (cause : error)
| ErrDecryptServerStatic (cause : error)
| ErrStaticLength (n : nat)
| ErrMixServerStatic (cause : error)
| ErrDecryptCertificate (cause : error)
| ErrUnmarshalCertificate (cause : error)
| ErrMissingCertParts
| ErrUnmarshalCertDetails (cause : error)
| ErrCertKeyMismatch
| ErrMixNoisePrivate (cause : error)
| ErrMarshalClientFinishPayload (cause : error)
| ErrMarshalFinish (cause : error)
| ErrSendFinish (cause : error)
| ErrCreateNoiseSocket (cause : error)
| ErrGenerateAdvSecret (cause : error).

(** The text of each error, as the format strings have it (the decimal
    rendering of [%d] is left symbolic). *)
Definition Error (e : HandshakeError) : string :=
  match e with
  | ErrMarshalHandshake c => ("failed to marshal handshake message: " ++ c)%string
  | ErrSendHandshake c => ("failed to send handshake message: " ++ c)%string
  | ErrUnmarshalResponse c => ("failed to unmarshal handshake response: " ++ c)%string
  | ErrMissingParts => ("missing parts of handshake response")%string
  | ErrMixServerEphemeral c => ("failed to mix server ephemeral key in: " ++ c)%string
  | ErrDecryptServerStatic c =>
      ("failed to decrypt server static ciphertext: " ++ c)%string
  | ErrStaticLength _ =>
      ("unexpected length of server static plaintext %d (expected 32)")%string
  | ErrMixServerStatic c => ("failed to mix server static key in: " ++ c)%string
  | ErrDecryptCertificate c =>
      ("failed to decrypt noise certificate ciphertext: " ++ c)%string
  | ErrUnmarshalCertificate c => ("failed to unmarshal noise certificate: " ++ c)%string
  | ErrMissingCertParts => ("missing parts of noise certificate")%string
  | ErrUnmarshalCertDetails c =>
      ("failed to unmarshal noise certificate details: " ++ c)%string
  | ErrCertKeyMismatch => ("cert key doesn't match decrypted static")%string
  | ErrMixNoisePrivate c => ("failed to mix noise private key in: " ++ c)%string
  | ErrMarshalClientFinishPayload c =>
      ("failed to marshal client finish payload: " ++ c)%string
  | ErrMarshalFinish c => ("failed to marshal handshake finish message: " ++ c)%string
  | ErrSendFinish c => ("failed to send handshake finish message: " ++ c)%string
  | ErrCreateNoiseSocket c => ("failed to create noise socket: " ++ c)%string
  | ErrGenerateAdvSecret c => ("failed to generate adv secret key: " ++ c)%string
  end.

(** ** The calls [doHandshake] makes, in the order it makes them

    Every call on the Noise state, the frame socket and the key
    generators is logged when it is made, whether it succeeds or not. *)
Inductive Event :=
| EvStart (pattern header : bytes)
| EvAuthenticate (data : option bytes)
| EvMixSharedSecretIntoKey (priv pub : bytes)
| EvDecrypt (ciphertext : option bytes)
| EvEncrypt (plaintext : bytes)
| EvFinish
| EvSendAndReceiveFrame (data : bytes)
| EvSendFrame (data : bytes)
| EvNewKeyPair
| EvCreateSignedPreKey (keyID : Z)
| EvUint32
| EvRandRead (n : nat).

(** ** The collaborators

    [FS] is [socket.FrameSocket], [NH] [socket.NoiseHandshake], [NS]
    [socket.NoiseSocket], [RNG] the state of the random sources, [CP]
    [waProto.ClientPayload].  Methods that mutate their receiver return
    the new receiver. *)
Record Externals (FS NH NS RNG CP : Type) := mkExternals {
  (* google.golang.org/protobuf/proto *)
  Marshal_HandshakeMessage : HandshakeMessage -> error + bytes;
  Unmarshal_HandshakeMessage : bytes -> error + HandshakeMessage;
  Unmarshal_NoiseCertificate : bytes -> error + NoiseCertificate;
  Unmarshal_NoiseCertificateDetails :
    option bytes -> error + NoiseCertificateDetails;
  Marshal_ClientPayload : CP -> error + bytes;
  (* socket.FrameSocket *)
  Header : FS -> bytes;
  SendAndReceiveFrame : FS -> bytes -> (error + bytes) * FS;
  SendFrame : FS -> bytes -> option error * FS;
  (* socket.NoiseHandshake *)
  NoiseStartPattern : bytes;
  NewNoiseHandshake : NH;
  Start : NH -> bytes -> bytes -> NH;
  Authenticate : NH -> option bytes -> NH;
  MixSharedSecretIntoKey : NH -> bytes -> bytes -> error + NH;
  Decrypt : NH -> option bytes -> error + (bytes * NH);
  Encrypt : NH -> bytes -> bytes * NH;
  Finish : NH -> FS -> error + NS;
  (* store.Device *)
  GetClientPayload : Device -> CP;
  (* util/keys, math/rand, crypto/rand *)
  NewKeyPair : RNG -> KeyPair * RNG;
  CreateSignedPreKey : KeyPair -> Z -> RNG -> PreKey * RNG;
  Uint32 : RNG -> Z * RNG;
  rand_Read : RNG -> nat -> (bytes * option error) * RNG
}.

Section DoHandshake.

Variables FS NH NS RNG CP : Type.
Variable ext : Externals FS NH NS RNG CP.

(** The part of [Client] the handshake reads and writes. *)
Record Client := mkClient {
  Store : Device;
  socket : option NS;
  isExpectedDisconnect : bool
}.

(** What a run of [doHandshake] can change: the client, the frame
    socket, the local Noise state, the random sources, and the log. *)
Record State := mkState {
  cli : Client;
  fs : FS;
  nh : NH;
  rng : RNG;
  trace : list Event
}.

Definition M (A : Type) : Type := State -> (HandshakeError + A) * State.

Definition ret {A} (a : A) : M A := fun s => (inr a, s).

Definition throw {A} (e : HandshakeError) : M A := fun s => (inl e, s).

Definition bind {A B} (m : M A) (k : A -> M B) : M B :=
  fun s =>
    match m s with
    | (inl e, s') => (inl e, s')
    | (inr a, s') => k a s'
    end.

(** [if err != nil { return fmt.Errorf("...: %w", err) }] *)
Definition orFail {A} (r : error + A) (wrap : error -> HandshakeError) : M A :=
  match r with
  | inl e => throw (wrap e)
  | inr a => ret a
  end.

Definition log (e : Event) : M unit :=
  fun s => (inr tt, mkState (cli s) (fs s) (nh s) (rng s) (trace s ++ [e])).

Definition get : M State := fun s => (inr s, s).

Definition put_nh (n : NH) : M unit :=
  fun s => (inr tt, mkState (cli s) (fs s) n (rng s) (trace s)).

Definition put_fs (f : FS) : M unit :=
  fun s => (inr tt, mkState (cli s) f (nh s) (rng s) (trace s)).

Definition put_rng (r : RNG) : M unit :=
  fun s => (inr tt, mkState (cli s) (fs s) (nh s) r (trace s)).

Definition put_cli (c : Client) : M unit :=
  fun s => (inr tt, mkState c (fs s) (nh s) (rng s) (trace s)).

Definition modify_Store (f : Device -> Device) : M unit :=
  fun s =>
    (inr tt,
     mkState (mkClient (f (Store (cli s))) (socket (cli s))
                (isExpectedDisconnect (cli s)))
       (fs s) (nh s) (rng s) (trace s)).

Notation "x <- m ;; k" := (bind m (fun x => k))
  (at level 61, m at next level, right associativity).
Notation "m ;; k" := (bind m (fun _ => k))
  (at level 61, right associativity).

(** *** Logged calls on the collaborators *)

Definition nh_Start (pattern header : bytes) : M unit :=
  log (EvStart pattern header) ;;
  s <- get ;;
  put_nh (Start ext (nh s) pattern header).

Definition nh_Authenticate (data : option bytes) : M unit :=
  log (EvAuthenticate data) ;;
  s <- get ;;
  put_nh (Authenticate ext (nh s) data).

Definition nh_MixSharedSecretIntoKey (priv pub : bytes) : M (error + unit) :=
  log (EvMixSharedSecretIntoKey priv pub) ;;
  s <- get ;;
  match MixSharedSecretIntoKey ext (nh s) priv pub with
  | inl e => ret (inl e)
  | inr n => put_nh n ;; ret (inr tt)
  end.

Definition nh_Decrypt (ciphertext : option bytes) : M (error + bytes) :=
  log (EvDecrypt ciphertext) ;;
  s <- get ;;
  match Decrypt ext (nh s) ciphertext with
  | inl e => ret (inl e)
  | inr (plaintext, n) => put_nh n ;; ret (inr plaintext)
  end.

Definition nh_Encrypt (plaintext : bytes) : M bytes :=
  log (EvEncrypt plaintext) ;;
  s <- get ;;
  let (ciphertext, n) := Encrypt ext (nh s) plaintext in
  put_nh n ;; ret ciphertext.

Definition nh_Finish : M (error + NS) :=
  log EvFinish ;;
  s <- get ;;
  ret (Finish ext (nh s) (fs s)).

Definition fs_SendAndReceiveFrame (data : bytes) : M (error + bytes) :=
  log (EvSendAndReceiveFrame data) ;;
  s <- get ;;
  let (r, f) := SendAndReceiveFrame ext (fs s) data in
  put_fs f ;; ret r.

Definition fs_SendFrame (data : bytes) : M (error + unit) :=
  log (EvSendFrame data) ;;
  s <- get ;;
  let (r, f) := SendFrame ext (fs s) data in
  put_fs f ;;
  ret (match r with Some e => inl e | None => inr tt end).

Definition keys_NewKeyPair : M KeyPair :=
  log EvNewKeyPair ;;
  s <- get ;;
  let (k, r) := NewKeyPair ext (rng s) in
  put_rng r ;; ret k.

Definition keys_CreateSignedPreKey (identity : KeyPair) (keyID : Z)
  : M PreKey :=
  log (EvCreateSignedPreKey keyID) ;;
  s <- get ;;
  let (k, r) := CreateSignedPreKey ext identity keyID (rng s) in
  put_rng r ;; ret k.

Definition mathRand_Uint32 : M Z :=
  log EvUint32 ;;
  s <- get ;;
  let (z, r) := Uint32 ext (rng s) in
  put_rng r ;; ret (to_uint32 z).

(** [rand.Read(buf)] fills [buf] in place and answers an optional
    error; the caller sees the buffer after the call. *)
Definition rand_Read_into (buf : bytes) : M (bytes * option error) :=
  log (EvRandRead (length buf)) ;;
  s <- get ;;
  let '(data, err, r) := rand_Read ext (rng s) (length buf) in
  put_rng r ;; ret (copy buf data, err).

Definition is_nil (b : option bytes) : bool :=
  match b with Some _ => false | None => true end.

(** The conversion of a slice of length 32 to a [[32]byte] array. *)
Definition array32 (b : option bytes) : bytes :=
  firstn 32 (match b with Some l => l | None => [] end).

(** *** [Client.doHandshake(fs, ephemeralKP)]

    The body after [nh := socket.NewNoiseHandshake()], statement by
    statement. *)
Definition doHandshake_body (ephemeralKP : KeyPair) : M unit :=
  s <- get ;;
  nh_Start (NoiseStartPattern ext) (Header ext (fs s)) ;;
  nh_Authenticate (Some (Pub ephemeralKP)) ;;
  data <- orFail
    (Marshal_HandshakeMessage ext
       (mkHandshakeMessage
          (Some (mkClientHello (Some (Pub ephemeralKP)))) None None))
    ErrMarshalHandshake ;;
  r <- fs_SendAndReceiveFrame data ;;
  resp <- orFail r ErrSendHandshake ;;
  handshakeResponse <-
    orFail (Unmarshal_HandshakeMessage ext resp) ErrUnmarshalResponse ;;
  let serverEphemeral := GetEphemeral (GetServerHello handshakeResponse) in
  let serverStaticCiphertext :=
    GetStatic (GetServerHello handshakeResponse) in
  let certificateCiphertext :=
    GetPayload (GetServerHello handshakeResponse) in
  if negb (len serverEphemeral =? 32)
     || is_nil serverStaticCiphertext
     || is_nil certificateCiphertext
  then throw ErrMissingParts
  else
  let serverEphemeralArr := array32 serverEphemeral in

  nh_Authenticate serverEphemeral ;;
  r <- nh_MixSharedSecretIntoKey (Priv ephemeralKP) serverEphemeralArr ;;
  orFail r ErrMixServerEphemeral ;;

  r <- nh_Decrypt serverStaticCiphertext ;;
  staticDecrypted <- orFail r ErrDecryptServerStatic ;;
  if negb (length staticDecrypted =? 32)
  then throw (ErrStaticLength (length staticDecrypted))
  else
  r <- nh_MixSharedSecretIntoKey (Priv ephemeralKP) staticDecrypted ;;
  orFail r ErrMixServerStatic ;;

  r <- nh_Decrypt certificateCiphertext ;;
  certDecrypted <- orFail r ErrDecryptCertificate ;;
  cert <-
    orFail (Unmarshal_NoiseCertificate ext certDecrypted)
      ErrUnmarshalCertificate ;;
  let certDetailsRaw := GetDetails cert in
  let certSignature := GetSignature cert in
  if is_nil certDetailsRaw || is_nil certSignature
  then throw ErrMissingCertParts
  else
  certDetails <-
    orFail (Unmarshal_NoiseCertificateDetails ext certDetailsRaw)
      ErrUnmarshalCertDetails ;;
  if negb (bytes_Equal (GetKey certDetails) (Some staticDecrypted))
  then throw ErrCertKeyMismatch
  else

  s <- get ;;
  noiseKey <-
    match NoiseKey (Store (cli s)) with
    | None =>
        k <- keys_NewKeyPair ;;
        modify_Store (fun d => set_NoiseKey d k) ;;
        ret k
    | Some k => ret k
    end ;;

  encryptedPubkey <- nh_Encrypt (Pub noiseKey) ;;
  r <- nh_MixSharedSecretIntoKey (Priv noiseKey) serverEphemeralArr ;;
  orFail r ErrMixNoisePrivate ;;

  s <- get ;;
  identityKey <-
    match IdentityKey (Store (cli s)) with
    | None =>
        k <- keys_NewKeyPair ;;
        modify_Store (fun d => set_IdentityKey d k) ;;
        ret k
    | Some k => ret k
    end ;;
  s <- get ;;
  match SignedPreKey (Store (cli s)) with
  | None =>
      k <- keys_CreateSignedPreKey identityKey 1 ;;
      modify_Store (fun d => set_SignedPreKey d k)
  | Some _ => ret tt
  end ;;
  s <- get ;;
  (if (RegistrationID (Store (cli s)) =? 0)%Z
   then
     z <- mathRand_Uint32 ;;
     modify_Store (fun d => set_RegistrationID d z)
   else ret tt) ;;

  s <- get ;;
  clientFinishPayloadBytes <-
    orFail (Marshal_ClientPayload ext (GetClientPayload ext (Store (cli s))))
      ErrMarshalClientFinishPayload ;;
  encryptedClientFinishPayload <- nh_Encrypt clientFinishPayloadBytes ;;
  data <- orFail
    (Marshal_HandshakeMessage ext
       (mkHandshakeMessage None None
          (Some (mkClientFinish (Some encryptedPubkey)
                   (Some encryptedClientFinishPayload)))))
    ErrMarshalFinish ;;
  r <- fs_SendFrame data ;;
  orFail r ErrSendFinish ;;

  r <- nh_Finish ;;
  ns <- orFail r ErrCreateNoiseSocket ;;

  s <- get ;;
  match AdvSecretKey (Store (cli s)) with
  | None =>
      modify_Store (fun d => set_AdvSecretKey d (make 32)) ;;
      r <- rand_Read_into (make 32) ;;
      modify_Store (fun d => set_AdvSecretKey d (fst r)) ;;
      match snd r with
      | Some e => throw (ErrGenerateAdvSecret e)
      | None => ret tt
      end
  | Some _ => ret tt
  end ;;

  s <- get ;;
  put_cli (mkClient (Store (cli s)) (socket (cli s)) false) ;;
  s <- get ;;
  put_cli (mkClient (Store (cli s)) (Some ns) (isExpectedDisconnect (cli s))) ;;

  ret tt.

(** A run of [doHandshake]: the returned error ([None] is [nil]) and
    everything the run left behind. *)
Definition doHandshake (c : Client) (f : FS) (r : RNG) (ephemeralKP : KeyPair)
  : option HandshakeError * State :=
  match doHandshake_body ephemeralKP
          (mkState c f (NewNoiseHandshake ext) r []) with
  | (inl e, s) => (Some e, s)
  | (inr _, s) => (None, s)
  end.

End DoHandshake.

Arguments doHandshake {FS NH NS RNG CP} ext c f r ephemeralKP.
Arguments mkClient {NS} Store socket isExpectedDisconnect.

(** ** A scripted peer

    A concrete set of collaborators to run [doHandshake] on: the cipher
    is the identity, keys are drawn from a counter, and the script says
    what the server sends and which calls fail. *)
Record Script := mkScript {
  sc_hello : HandshakeMessage;       (* what message 2 parses to *)
  sc_cert_key : option bytes;        (* the key inside the certificate *)
  sc_send_finish : option error;     (* result of sending message 3 *)
  sc_finish : option error           (* result of nh.Finish *)
}.

Definition key_of (n : nat) : bytes :=
  repeat (match Byte.of_nat n with Some b => b | None => Byte.xff end) 32.

Definition scripted (sc : Script) : Externals unit unit unit nat Device :=
  {| Marshal_HandshakeMessage := fun m =>
       inr (match HM_ClientFinish m with
            | Some cf =>
                match ClientFinish_Static cf with Some b => b | None => [] end
            | None => []
            end);
     Unmarshal_HandshakeMessage := fun _ => inr (sc_hello sc);
     Unmarshal_NoiseCertificate := fun b =>
       inr (mkNoiseCertificate (Some b) (Some []));
     Unmarshal_NoiseCertificateDetails := fun _ =>
       inr (mkNoiseCertificateDetails None None None None (sc_cert_key sc));
     Marshal_ClientPayload := fun _ => inr [];
     Header := fun _ => [];
     SendAndReceiveFrame := fun _ _ => (inr [], tt);
     SendFrame := fun _ _ => (sc_send_finish sc, tt);
     NoiseStartPattern := [];
     NewNoiseHandshake := tt;
     Start := fun _ _ _ => tt;
     Authenticate := fun _ _ => tt;
     MixSharedSecretIntoKey := fun _ _ _ => inr tt;
     Decrypt := fun _ c => inr (match c with Some b => b | None => [] end, tt);
     Encrypt := fun _ p => (p, tt);
     Finish := fun _ _ =>
       match sc_finish sc with Some e => inl e | None => inr tt end;
     GetClientPayload := fun d => d;
     NewKeyPair := fun n => (mkKeyPair (key_of n) (key_of (S n)), S (S n));
     CreateSignedPreKey := fun _ id n =>
       (mkPreKey (mkKeyPair (key_of n) (key_of (S n))) id
          (Some (key_of n ++ key_of n)), S (S n));
     Uint32 := fun n => (Z.of_nat (S n), S n);
     rand_Read := fun n k => (key_of n, None, S n)
  |}.

(** A device before its first pairing: nothing generated yet. *)
Definition fresh_Device : Device :=
  mkDevice None None None 0 None None EmptyString EmptyString EmptyString
    false.

Definition fresh_Client : Client unit := mkClient fresh_Device None true.

Definition ephemeral0 : KeyPair := mkKeyPair (key_of 200) (key_of 201).

(** Message 2 of an honest server whose static key is [key_of 100]. *)
Definition hello_ok : HandshakeMessage :=
  mkHandshakeMessage None
    (Some (mkServerHello (Some (key_of 150)) (Some (key_of 100))
             (Some (key_of 101))))
    None.

Definition honest : Script :=
  mkScript hello_ok (Some (key_of 100)) None None.


(** A server whose certificate vouches for another key than the static
    key it sent. *)
Definition mismatched : Script :=
  mkScript hello_ok (Some (key_of 102)) None None.

(** Message 2 with a 31-byte ephemeral key. *)
Definition hello_short : HandshakeMessage :=
  mkHandshakeMessage None
    (Some (mkServerHello (Some (firstn 31 (key_of 150))) (Some (key_of 100))
             (Some (key_of 101))))
    None.

Definition malformed : Script :=
  mkScript hello_short (Some (key_of 100)) None None.

(** ** Vocabulary of the properties *)

(** Message 1, as [doHandshake] builds it. *)
Definition client_hello (ephemeralKP : KeyPair) : HandshakeMessage :=
  mkHandshakeMessage (Some (mkClientHello (Some (Pub ephemeralKP)))) None None.

(** The shape test of line 48, positively. *)
Definition well_shaped (m : HandshakeMessage) : Prop :=
  len (GetEphemeral (GetServerHello m)) = 32 /\
  GetStatic (GetServerHello m) <> None /\
  GetPayload (GetServerHello m) <> None.

Section Paths.

Variables FS NH NS RNG CP : Type.
Variable ext : Externals FS NH NS RNG CP.

(** The server answered message 1 with [resp], which parses to [hm]. *)
Definition response_received (f : FS) (ephemeralKP : KeyPair)
    (data resp : bytes) (hm : HandshakeMessage) : Prop :=
  Marshal_HandshakeMessage ext (client_hello ephemeralKP) = inr data /\
  (exists f', SendAndReceiveFrame ext f data = (inr resp, f')) /\
  Unmarshal_HandshakeMessage ext resp = inr hm.

(** The Noise state when the server static ciphertext is decrypted:
    started, both ephemerals authenticated. *)
Definition nh_after_hello (f : FS) (ephemeralKP : KeyPair)
    (hm : HandshakeMessage) : NH :=
  Authenticate ext
    (Authenticate ext
       (Start ext (NewNoiseHandshake ext) (NoiseStartPattern ext)
          (Header ext f))
       (Some (Pub ephemeralKP)))
    (GetEphemeral (GetServerHello hm)).

(** The run gets as far as comparing the certified key: every step of
    lines 28 to 87 succeeds, the static key decrypts to
    [staticDecrypted] and the certificate details parse to
    [certDetails]. *)
Definition certificate_check_reached (f : FS) (ephemeralKP : KeyPair)
    (staticDecrypted : bytes) (certDetails : NoiseCertificateDetails)
  : Prop :=
  exists data resp hm nh1 nh2 nh3 certDecrypted nh4 cert,
    response_received f ephemeralKP data resp hm /\
    well_shaped hm /\
    MixSharedSecretIntoKey ext (nh_after_hello f ephemeralKP hm)
      (Priv ephemeralKP) (array32 (GetEphemeral (GetServerHello hm)))
      = inr nh1 /\
    Decrypt ext nh1 (GetStatic (GetServerHello hm))
      = inr (staticDecrypted, nh2) /\
    length staticDecrypted = 32 /\
    MixSharedSecretIntoKey ext nh2 (Priv ephemeralKP) staticDecrypted
      = inr nh3 /\
    Decrypt ext nh3 (GetPayload (GetServerHello hm))
      = inr (certDecrypted, nh4) /\
    Unmarshal_NoiseCertificate ext certDecrypted = inr cert /\
    GetDetails cert <> None /\
    GetSignature cert <> None /\
    Unmarshal_NoiseCertificateDetails ext (GetDetails cert)
      = inr certDetails.

End Paths.

(** The failures of lines 33 to 61: nothing past the decryption of the
    server static ciphertext has run. *)
Definition fails_by_static_decrypt (e : HandshakeError) : bool :=
  match e with
  | ErrMarshalHandshake _ | ErrSendHandshake _ | ErrUnmarshalResponse _
  | ErrMissingParts | ErrMixServerEphemeral _ | ErrDecryptServerStatic _ =>
      true
  | _ => false
  end.

(** Calls that generate key material. *)
Definition is_keygen (e : Event) : bool :=
  match e with
  | EvNewKeyPair | EvCreateSignedPreKey _ | EvUint32 | EvRandRead _ => true
  | _ => false
  end.

Definition is_Encrypt (e : Event) : bool :=
  match e with EvEncrypt _ => true | _ => false end.


Definition is_SendFrame (e : Event) : bool :=
  match e with EvSendFrame _ => true | _ => false end.

Definition is_Finish (e : Event) : bool :=
  match e with EvFinish => true | _ => false end.





Definition is_network (e : Event) : bool :=
  match e with
  | EvSendAndReceiveFrame _ | EvSendFrame _ => true
  | _ => false
  end.


(** How many events of a kind a trace holds. *)
Definition count (p : Event -> bool) (tr : list Event) : nat :=
  length (filter p tr).



(** All five pieces of long-term key material exist. *)
Definition key_material_complete (d : Device) : Prop :=
  NoiseKey d <> None /\
  IdentityKey d <> None /\
  SignedPreKey d <> None /\
  RegistrationID d <> 0%Z /\
  exists k, AdvSecretKey d = Some k /\ length k = 32.


(** ** Further vocabulary *)

(** The failures of lines 33 to 89, up to and including the comparison
    of the certified key: no statement that writes to [cli.Store] has
    run. *)
Definition fails_before_store (e : HandshakeError) : bool :=
  match e with
  | ErrMarshalHandshake _ | ErrSendHandshake _ | ErrUnmarshalResponse _
  | ErrMissingParts | ErrMixServerEphemeral _ | ErrDecryptServerStatic _
  | ErrStaticLength _ | ErrMixServerStatic _ | ErrDecryptCertificate _
  | ErrUnmarshalCertificate _ | ErrMissingCertParts
  | ErrUnmarshalCertDetails _ | ErrCertKeyMismatch => true
  | _ => false
  end.

(** Every presence test of lines 92 to 136 finds its field set. *)
Definition nothing_missing (d : Device) : bool :=
  match NoiseKey d, IdentityKey d, SignedPreKey d, AdvSecretKey d with
  | Some _, Some _, Some _, Some _ => negb (RegistrationID d =? 0)%Z
  | _, _, _, _ => false
  end.

(** The store [after] a run, with the adv secret it had [before]. *)
Definition payload_store (before after : Device) : Device :=
  mkDevice (NoiseKey after) (IdentityKey after) (SignedPreKey after)
    (RegistrationID after) (AdvSecretKey before) (ID after) (Platform after)
    (BusinessName after) (PushName after) (Initialized after).

(** Message 2 whose static ciphertext decrypts, under the identity
    cipher of the scripted peer, to 31 bytes. *)
Definition hello_short_static : HandshakeMessage :=
  mkHandshakeMessage None
    (Some (mkServerHello (Some (key_of 150)) (Some (firstn 31 (key_of 100)))
             (Some (key_of 101))))
    None.

Definition short_static : Script :=
  mkScript hello_short_static (Some (key_of 100)) None None.

(** The honest peer on a machine whose [rand.Read] fails after five
    bytes. *)
Definition no_entropy : Externals unit unit unit nat Device :=
  let ext := scripted honest in
  mkExternals
    (Marshal_HandshakeMessage ext) (Unmarshal_HandshakeMessage ext)
    (Unmarshal_NoiseCertificate ext) (Unmarshal_NoiseCertificateDetails ext)
    (Marshal_ClientPayload ext) (Header ext) (SendAndReceiveFrame ext)
    (SendFrame ext) (NoiseStartPattern ext) (NewNoiseHandshake ext)
    (Start ext) (Authenticate ext) (MixSharedSecretIntoKey ext)
    (Decrypt ext) (Encrypt ext) (Finish ext) (GetClientPayload ext)
    (NewKeyPair ext) (CreateSignedPreKey ext) (Uint32 ext)
    (fun n _ => (firstn 5 (key_of n), Some "short read"%string, S n)).

(** The client as the handshake with the honest peer leaves it. *)
Definition paired_Client : Client unit :=
  cli (snd (doHandshake (scripted honest) fresh_Client tt 0 ephemeral0)).

Section StaticKey.

Variables FS NH NS RNG CP : Type.
Variable ext : Externals FS NH NS RNG CP.

(** The run gets as far as decrypting the server static key: every
    step of lines 28 to 61 succeeds and [nh.Decrypt] returns
    [staticDecrypted] for the static ciphertext of the server hello. *)
Definition static_key_decrypted (f : FS) (ephemeralKP : KeyPair)
    (staticDecrypted : bytes) : Prop :=
  exists data resp hm nh1 nh2,
    response_received ext f ephemeralKP data resp hm /\
    well_shaped hm /\
    MixSharedSecretIntoKey ext (nh_after_hello ext f ephemeralKP hm)
      (Priv ephemeralKP) (array32 (GetEphemeral (GetServerHello hm)))
      = inr nh1 /\
    Decrypt ext nh1 (GetStatic (GetServerHello hm))
      = inr (staticDecrypted, nh2).

End StaticKey.

End Handshake.
(* ================================================================== *)
(** * Part II: store/sqlstore/upgrade.go                                *)
(* ================================================================== *)

Module SqlStore.

Definition error := string.

(** ** SQL values and rows *)

Inductive Value :=
| VNull
| VInt (z : Z)
| VText (s : string)
| VBytes (b : list byte)
| VBool (b : bool).

Definition Value_eqb (a b : Value) : bool :=
  match a, b with
  | VNull, VNull => true
  | VInt x, VInt y => (x =? y)%Z
  | VText x, VText y => String.eqb x y
  | VBytes x, VBytes y =>
      if list_eq_dec Byte.byte_eq_dec x y then true else false
  | VBool x, VBool y => Bool.eqb x y
  | _, _ => false
  end.

Definition is_null (v : Value) : bool :=
  match v with VNull => true | _ => false end.

(** A row: column name, value. *)
Definition Row := list (string * Value).

Definition row_find (r : Row) (c : string) : option Value :=
  option_map snd (find (fun p => String.eqb (fst p) c) r).

Definition row_get (r : Row) (c : string) : Value :=
  match row_find r c with Some v => v | None => VNull end.

(** ** The data definition language the migration steps use *)

Inductive SqlType := TEXT | BIGINT | INTEGER | bytea | BOOLEAN.

(** The two forms of [CHECK] in the schema:
    [CHECK ( length(col) = n )] and [CHECK ( col >= lo AND col < hi )]. *)
Inductive Check :=
| CheckLength (n : Z)
| CheckRange (lo hi : Z).

Record Column := mkColumn {
  col_name : string;
  col_type : SqlType;
  col_not_null : bool;
  col_check : option Check;
  col_default : option Value
}.

Inductive FKAction := Cascade | NoAction.

Record ForeignKey := mkForeignKey {
  fk_columns : list string;
  fk_ref_table : string;
  fk_ref_columns : list string;
  fk_on_delete : FKAction;
  fk_on_update : FKAction
}.

Record TableDef := mkTableDef {
  table_name : string;
  columns : list Column;
  primary_key : list string;
  foreign_keys : list ForeignKey
}.

(** ** The engine: tables with their rows *)

Record Table := mkTable { tdef : TableDef; trows : list Row }.

Definition Database := list Table.

Definition lookup (db : Database) (t : string) : option Table :=
  find (fun tbl => String.eqb (table_name (tdef tbl)) t) db.

Definition rows (db : Database) (t : string) : list Row :=
  match lookup db t with Some tbl => trows tbl | None => [] end.

Definition update_rows (db : Database) (t : string)
    (f : list Row -> list Row) : Database :=
  map (fun tbl =>
         if String.eqb (table_name (tdef tbl)) t
         then mkTable (tdef tbl) (f (trows tbl))
         else tbl) db.

(** A [CHECK] refuses a row only when its condition is false; on NULL
    the condition is unknown and the row passes.  A value the
    condition cannot be computed on makes the statement fail. *)
Definition check_ok (c : Check) (v : Value) : bool :=
  match v, c with
  | VNull, _ => true
  | VBytes b, CheckLength n => (Z.of_nat (length b) =? n)%Z
  | VText s, CheckLength n => (Z.of_nat (String.length s) =? n)%Z
  | VInt z, CheckRange lo hi => (lo <=? z)%Z && (z <? hi)%Z
  | _, _ => false
  end.

(** A column accepts a value when [NOT NULL] and [CHECK] allow it; a
    column of the primary key is [NOT NULL] too. *)
Definition column_ok (def : TableDef) (c : Column) (v : Value) : bool :=
  let not_null :=
    col_not_null c || existsb (String.eqb (col_name c)) (primary_key def) in
  negb (not_null && is_null v)
  && match col_check c with Some k => check_ok k v | None => true end.

(** The row as stored: every column of the table, with the given
    value, else the [DEFAULT], else NULL.  Values are stored as given. *)
Definition complete_row (def : TableDef) (r : Row) : Row :=
  map (fun c =>
         (col_name c,
          match row_find r (col_name c) with
          | Some v => v
          | None =>
              match col_default c with Some v => v | None => VNull end
          end))
      (columns def).

Definition key (cols : list string) (r : Row) : list Value :=
  map (row_get r) cols.

Fixpoint key_eqb (a b : list Value) : bool :=
  match a, b with
  | [], [] => true
  | x :: a', y :: b' => Value_eqb x y && key_eqb a' b'
  | _, _ => false
  end.

(** [child] references [parent] through [fk]: no referencing column is
    NULL and the values agree (MATCH SIMPLE). *)
Definition references (fk : ForeignKey) (child parent : Row) : bool :=
  forallb (fun v => negb (is_null v)) (key (fk_columns fk) child)
  && key_eqb (key (fk_columns fk) child) (key (fk_ref_columns fk) parent).

(** The foreign key of a new row is satisfied: a referencing column is
    NULL, or some row of the referenced table carries the key. *)
Definition fk_satisfied (db : Database) (fk : ForeignKey) (r : Row) : bool :=
  existsb is_null (key (fk_columns fk) r)
  || existsb (references fk r) (rows db (fk_ref_table fk)).

(** [INSERT INTO t (...) VALUES (...)].  Uniqueness is that of the
    primary key: a table declared without one takes equal rows. *)
Definition insert (db : Database) (t : string) (r : Row)
  : error + Database :=
  match lookup db t with
  | None => inl "no such table"%string
  | Some tbl =>
      let def := tdef tbl in
      if negb (forallb
                 (fun p => existsb (fun c => String.eqb (col_name c) (fst p))
                             (columns def)) r)
      then inl "no such column"%string
      else
        let row := complete_row def r in
        if negb (forallb (fun c => column_ok def c (row_get row (col_name c)))
                   (columns def))
        then inl "constraint failed"%string
        else if existsb
                  (fun old => key_eqb (key (primary_key def) old)
                                (key (primary_key def) row))
                  (trows tbl)
                && match primary_key def with [] => false | _ :: _ => true end
        then inl "duplicate key"%string
        else if negb (forallb (fun fk => fk_satisfied db fk row)
                        (foreign_keys def))
        then inl "foreign key violation"%string
        else inr (update_rows db t (fun rs => rs ++ [row]))
  end.

(** [CREATE TABLE [IF NOT EXISTS] ...]. *)
Definition create_table (db : Database) (if_not_exists : bool)
    (def : TableDef) : error + Database :=
  match lookup db (table_name def) with
  | Some _ =>
      if if_not_exists then inr db else inl "table already exists"%string
  | None => inr (db ++ [mkTable def []])
  end.

(** [DELETE FROM t]. *)
Definition delete_all (db : Database) (t : string) : error + Database :=
  match lookup db t with
  | None => inl "no such table"%string
  | Some _ => inr (update_rows db t (fun _ => []))
  end.

(** The foreign keys that point at table [t], each with the table that
    declares it. *)
Definition referencing (db : Database) (t : string)
  : list (string * ForeignKey) :=
  flat_map
    (fun tbl =>
       map (fun fk => (table_name (tdef tbl), fk))
         (filter (fun fk => String.eqb (fk_ref_table fk) t)
            (foreign_keys (tdef tbl))))
    db.

(** [DELETE FROM t WHERE victim], following the foreign keys: the rows
    referencing a deleted row through an [ON DELETE CASCADE] key are
    deleted in turn; through a key without it they make the statement
    fail.  [fuel] bounds the depth of the chain of references. *)
Fixpoint delete_rows (fuel : nat) (db : Database) (t : string)
    (victim : Row -> bool) : error + Database :=
  match fuel with
  | 0 => inl "out of fuel"%string
  | S fuel' =>
      match lookup db t with
      | None => inl "no such table"%string
      | Some tbl =>
          let gone := filter victim (trows tbl) in
          let db1 :=
            update_rows db t (filter (fun r => negb (victim r))) in
          fold_left
            (fun acc cf =>
               match acc with
               | inl e => inl e
               | inr d =>
                   let refs := fun r => existsb (references (snd cf) r) gone in
                   match fk_on_delete (snd cf) with
                   | Cascade => delete_rows fuel' d (fst cf) refs
                   | NoAction =>
                       if existsb refs (rows d (fst cf))
                       then inl "foreign key violation"%string
                       else inr d
                   end
               end)
            (referencing db t) (inr db1)
      end
  end.

Definition delete_where (db : Database) (t : string) (victim : Row -> bool)
  : error + Database :=
  delete_rows (S (length db)) db t victim.

(** ** The statements of upgrade.go *)

Inductive Stmt :=
| CREATE_TABLE (if_not_exists : bool) (def : TableDef)
| DELETE_FROM (t : string)
| INSERT_INTO (t : string) (r : Row).

Definition exec_stmt (db : Database) (s : Stmt) : error + Database :=
  match s with
  | CREATE_TABLE ine def => create_table db ine def
  | DELETE_FROM t => delete_all db t
  | INSERT_INTO t r => insert db t r
  end.

Local Open Scope string_scope.

Definition not_null := true.
Definition nullable := false.

(** [col bytea NOT NULL CHECK ( length(col) = n )] *)
Definition bytes_col (name : string) (n : Z) : Column :=
  mkColumn name bytea not_null (Some (CheckLength n)) None.

(** [FOREIGN KEY (cols) REFERENCES t(refs) ON DELETE CASCADE ON UPDATE
    CASCADE] *)
Definition cascade_fk (cols : list string) (t : string) (refs : list string)
  : ForeignKey :=
  mkForeignKey cols t refs Cascade Cascade.

(** Lines 17 to 37. *)
Definition whatsmeow_device : TableDef :=
  mkTableDef "whatsmeow_device"
    [ mkColumn "jid" TEXT nullable None None;
      mkColumn "registration_id" BIGINT not_null
        (Some (CheckRange 0 4294967296)) None;
      bytes_col "noise_key" 32;
      bytes_col "identity_key" 32;
      bytes_col "signed_pre_key" 32;
      mkColumn "signed_pre_key_id" INTEGER not_null
        (Some (CheckRange 0 16777216)) None;
      bytes_col "signed_pre_key_sig" 64;
      mkColumn "adv_key" bytea not_null None None;
      mkColumn "adv_details" bytea not_null None None;
      bytes_col "adv_account_sig" 64;
      bytes_col "adv_device_sig" 64;
      mkColumn "platform" TEXT not_null None (Some (VText ""));
      mkColumn "business_name" TEXT not_null None (Some (VText ""));
      mkColumn "push_name" TEXT not_null None (Some (VText "")) ]
    ["jid"]
    [].

(** Lines 41 to 48. *)
Definition whatsmeow_identity_keys : TableDef :=
  mkTableDef "whatsmeow_identity_keys"
    [ mkColumn "our_jid" TEXT nullable None None;
      mkColumn "their_id" TEXT nullable None None;
      bytes_col "identity" 32 ]
    ["our_jid"; "their_id"]
    [ cascade_fk ["our_jid"] "whatsmeow_device" ["jid"] ].

(** Lines 49 to 57. *)
Definition whatsmeow_pre_keys : TableDef :=
  mkTableDef "whatsmeow_pre_keys"
    [ mkColumn "jid" TEXT nullable None None;
      mkColumn "key_id" INTEGER nullable (Some (CheckRange 0 16777216)) None;
      bytes_col "key" 32;
      mkColumn "uploaded" BOOLEAN not_null None None ]
    ["jid"; "key_id"]
    [ cascade_fk ["jid"] "whatsmeow_device" ["jid"] ].

(** Lines 61 to 68. *)
Definition whatsmeow_sessions : TableDef :=
  mkTableDef "whatsmeow_sessions"
    [ mkColumn "our_jid" TEXT nullable None None;
      mkColumn "their_id" TEXT nullable None None;
      mkColumn "session" bytea nullable None None ]
    ["our_jid"; "their_id"]
    [ cascade_fk ["our_jid"] "whatsmeow_device" ["jid"] ].

(** Lines 72 to 80. *)
Definition whatsmeow_sender_keys : TableDef :=
  mkTableDef "whatsmeow_sender_keys"
    [ mkColumn "our_jid" TEXT nullable None None;
      mkColumn "chat_id" TEXT nullable None None;
      mkColumn "sender_id" TEXT nullable None None;
      mkColumn "sender_key" bytea not_null None None ]
    ["our_jid"; "chat_id"; "sender_id"]
    [ cascade_fk ["our_jid"] "whatsmeow_device" ["jid"] ].

(** Lines 84 to 93. *)
Definition whatsmeow_app_state_sync_keys : TableDef :=
  mkTableDef "whatsmeow_app_state_sync_keys"
    [ mkColumn "jid" TEXT nullable None None;
      mkColumn "key_id" bytea nullable None None;
      mkColumn "key_data" bytea not_null None None;
      mkColumn "timestamp" BIGINT not_null None None;
      mkColumn "fingerprint" bytea not_null None None ]
    ["jid"; "key_id"]
    [ cascade_fk ["jid"] "whatsmeow_device" ["jid"] ].

(** Lines 97 to 105. *)
Definition whatsmeow_app_state_version : TableDef :=
  mkTableDef "whatsmeow_app_state_version"
    [ mkColumn "jid" TEXT nullable None None;
      mkColumn "name" TEXT nullable None None;
      mkColumn "version" BIGINT not_null None None;
      bytes_col "hash" 128 ]
    ["jid"; "name"]
    [ cascade_fk ["jid"] "whatsmeow_device" ["jid"] ].

(** Lines 109 to 118. *)
Definition whatsmeow_app_state_mutation_macs : TableDef :=
  mkTableDef "whatsmeow_app_state_mutation_macs"
    [ mkColumn "jid" TEXT nullable None None;
      mkColumn "name" TEXT nullable None None;
      mkColumn "version" BIGINT nullable None None;
      mkColumn "index_mac" bytea nullable (Some (CheckLength 32)) None;
      bytes_col "value_mac" 32 ]
    ["jid"; "name"; "version"; "index_mac"]
    [ cascade_fk ["jid"; "name"] "whatsmeow_app_state_version"
        ["jid"; "name"] ].

(** Lines 122 to 132. *)
Definition whatsmeow_contacts : TableDef :=
  mkTableDef "whatsmeow_contacts"
    [ mkColumn "our_jid" TEXT nullable None None;
      mkColumn "their_jid" TEXT nullable None None;
      mkColumn "first_name" TEXT nullable None None;
      mkColumn "full_name" TEXT nullable None None;
      mkColumn "push_name" TEXT nullable None None;
      mkColumn "business_name" TEXT nullable None None ]
    ["our_jid"; "their_jid"]
    [ cascade_fk ["our_jid"] "whatsmeow_device" ["jid"] ].

(** Lines 136 to 145. *)
Definition whatsmeow_chat_settings : TableDef :=
  mkTableDef "whatsmeow_chat_settings"
    [ mkColumn "our_jid" TEXT nullable None None;
      mkColumn "chat_jid" TEXT nullable None None;
      mkColumn "muted_until" BIGINT not_null None (Some (VInt 0));
      mkColumn "pinned" BOOLEAN not_null None (Some (VBool false));
      mkColumn "archived" BOOLEAN not_null None (Some (VBool false)) ]
    ["our_jid"; "chat_jid"]
    [ cascade_fk ["our_jid"] "whatsmeow_device" ["jid"] ].

(** Line 154: [whatsmeow_version (version INTEGER)]. *)
Definition whatsmeow_version : TableDef :=
  mkTableDef "whatsmeow_version"
    [ mkColumn "version" INTEGER nullable None None ] [] [].

(** ** The driver

    A call on the driver can fail for reasons of its own (connection
    lost, disk full).  The tape says, call after call, whether the
    next one does; an exhausted tape means no more faults. *)
Definition Tape := list bool.

Definition fault (tp : Tape) : bool * Tape :=
  match tp with
  | [] => (false, [])
  | b :: rest => (b, rest)
  end.

Definition driver_error : error := "driver: bad connection".

(** [*sql.Tx]: the working copy of the database that the statements
    of the transaction act on until it is committed or rolled back. *)
Definition Tx := Database.

(** Code that runs on a transaction: it may change the working copy
    and consumes the tape. *)
Definition T (A : Type) : Type := Tx -> Tape -> A * Tx * Tape.

Definition tret {A} (a : A) : T A := fun tx tp => (a, tx, tp).

Definition tbind {A B} (m : T A) (k : A -> T B) : T B :=
  fun tx tp => let '(a, tx', tp') := m tx tp in k a tx' tp'.

(** [tx.Exec(stmt)]: the error, if any; a failed statement leaves the
    working copy as it was. *)
Definition tx_Exec (s : Stmt) : T (option error) :=
  fun tx tp =>
    let (bad, tp') := fault tp in
    if bad then (Some driver_error, tx, tp')
    else
      match exec_stmt tx s with
      | inl e => (Some e, tx, tp')
      | inr tx' => (None, tx', tp')
      end.

(** [type upgradeFunc]: a function of the transaction (and of the
    container, which no step uses) answering an error. *)
Definition upgradeFunc := T (option error).

Notation "x <- m ;; k" := (tbind m (fun x => k))
  (at level 61, m at next level, right associativity).

(** [Upgrades[0]], lines 16 to 150.  The error of the second
    [tx.Exec] (line 41) is overwritten by the third (line 49) before
    anything looks at it. *)
Definition Upgrades_0 : upgradeFunc :=
  err <- tx_Exec (CREATE_TABLE false whatsmeow_device) ;;
  match err with Some e => tret (Some e) | None =>
  _ <- tx_Exec (CREATE_TABLE false whatsmeow_identity_keys) ;;
  err <- tx_Exec (CREATE_TABLE false whatsmeow_pre_keys) ;;
  match err with Some e => tret (Some e) | None =>
  err <- tx_Exec (CREATE_TABLE false whatsmeow_sessions) ;;
  match err with Some e => tret (Some e) | None =>
  err <- tx_Exec (CREATE_TABLE false whatsmeow_sender_keys) ;;
  match err with Some e => tret (Some e) | None =>
  err <- tx_Exec (CREATE_TABLE false whatsmeow_app_state_sync_keys) ;;
  match err with Some e => tret (Some e) | None =>
  err <- tx_Exec (CREATE_TABLE false whatsmeow_app_state_version) ;;
  match err with Some e => tret (Some e) | None =>
  err <- tx_Exec (CREATE_TABLE false whatsmeow_app_state_mutation_macs) ;;
  match err with Some e => tret (Some e) | None =>
  err <- tx_Exec (CREATE_TABLE false whatsmeow_contacts) ;;
  match err with Some e => tret (Some e) | None =>
  err <- tx_Exec (CREATE_TABLE false whatsmeow_chat_settings) ;;
  match err with Some e => tret (Some e) | None =>
  tret None
  end end end end end end end end end.

(** [var Upgrades = [...]upgradeFunc{ ... }] *)
Definition Upgrades : list upgradeFunc := [Upgrades_0].

(** [Container.setVersion(tx, version)], lines 167 to 174. *)
Definition setVersion (version : Z) : T (option error) :=
  err <- tx_Exec (DELETE_FROM "whatsmeow_version") ;;
  match err with
  | Some e => tret (Some e)
  | None =>
      tx_Exec (INSERT_INTO "whatsmeow_version" [("version", VInt version)])
  end.

(** *** Reading the counter *)

(** [strconv.ParseInt(s, 10, 64)]: an optional sign, then at least one
    decimal digit, the value within 64 bits. *)
Definition in_int64 (z : Z) : bool :=
  (-9223372036854775808 <=? z)%Z && (z <=? 9223372036854775807)%Z.

Definition ParseInt (s : string) : option Z :=
  let '(neg, digits) :=
    match s with
    | String "-"%char rest => (true, rest)
    | String "+"%char rest => (false, rest)
    | _ => (false, s)
    end in
  match digits with
  | EmptyString => None
  | _ =>
      match DecimalString.NilEmpty.uint_of_string digits with
      | Some u =>
          let z := Z.of_N (N.of_uint u) in
          let z := if neg then (- z)%Z else z in
          if in_int64 z then Some z else None
      | None => None
      end
  end.

(** [row.Scan(&version)] on one column, [version] being an [int]:
    database/sql renders the value as text and parses it; NULL and
    anything that does not spell an integer is an error. *)
Definition scan_int (v : Value) : option Z :=
  match v with
  | VNull => None
  | VInt z => if in_int64 z then Some z else None
  | VText s => ParseInt s
  | VBytes b => ParseInt (string_of_list_byte b)
  | VBool _ => None
  end.

(** What [SELECT version FROM whatsmeow_version LIMIT 1] followed by
    [Scan] yields on a database, when the driver answers: the first
    row, if there is one and it scans. *)
Definition scan_version (db : Database) : option Z :=
  match rows db "whatsmeow_version" with
  | [] => None
  | r :: _ => scan_int (row_get r "version")
  end.

(** The counter as [getVersion] sees it: 0 when nothing scans. *)
Definition stored_version (db : Database) : Z :=
  match scan_version db with Some z => z | None => 0%Z end.

(** ** The container *)

(** What [Upgrade] asks of the driver, in order. *)
Inductive Call :=
| CCreateVersionTable
| CQueryVersion
| CBegin
| CMigrate (index : Z)
| CSetVersion (version : Z)
| CRollback
| CCommit.

(** [Container] together with the database behind [c.db]: the
    committed state, the faults to come, the calls made so far. *)
Record World := mkWorld {
  committed : Database;
  tape : Tape;
  calls : list Call
}.

Definition called (c : Call) (w : World) : World :=
  mkWorld (committed w) (tape w) (calls w ++ [c]).

(** [Container.getVersion()], lines 153 to 165: the version, the
    error, the world after. *)
Definition getVersion (w : World) : Z * option error * World :=
  let w := called CCreateVersionTable w in
  let (bad, tp) := fault (tape w) in
  match
    (if bad then inl driver_error
     else create_table (committed w) true whatsmeow_version)
  with
  | inl e => ((-1)%Z, Some e, mkWorld (committed w) tp (calls w))
  | inr db =>
      let w := called CQueryVersion (mkWorld db tp (calls w)) in
      let version := 0%Z in
      let (bad, tp) := fault (tape w) in
      let version :=
        match (if bad then None else scan_version (committed w)) with
        | Some z => z
        | None => version
        end in
      (version, None, mkWorld (committed w) tp (calls w))
  end.

(** How a call of [Upgrade] ends. *)
Inductive Outcome :=
| Nil
| Err (e : error)
| Panic (msg : string)
| OutOfFuel.

(** [Upgrades[version]]; an index out of range panics. *)
Definition index (ups : list upgradeFunc) (version : Z)
  : option upgradeFunc :=
  if (version <? 0)%Z then None else nth_error ups (Z.to_nat version).

(** The loop of lines 183 to 204.  When [setVersion] or [Commit]
    fails the function returns with the transaction neither committed
    nor rolled back (lines 197 to 203): nothing of it is in the
    committed database, and the log of calls shows it unfinished.
    What the engine does to later calls while such a transaction stays
    open is not part of the world. *)
Fixpoint Upgrade_loop (ups : list upgradeFunc) (fuel : nat) (version : Z)
    (w : World) : Outcome * World :=
  if (version <? Z.of_nat (length ups))%Z then
    match fuel with
    | 0 => (OutOfFuel, w)
    | S fuel' =>
        let w := called CBegin w in
        let (bad, tp) := fault (tape w) in
        if bad then (Err driver_error, mkWorld (committed w) tp (calls w))
        else
          let tx : Tx := committed w in
          match index ups version with
          | None =>
              (Panic "index out of range",
               mkWorld (committed w) tp (calls w))
          | Some migrateFunc =>
              let w := called (CMigrate version) w in
              let '(err, tx, tp) := migrateFunc tx tp in
              match err with
              | Some e =>
                  let w := called CRollback w in
                  let (_, tp) := fault tp in
                  (Err e, mkWorld (committed w) tp (calls w))
              | None =>
                  let w := called (CSetVersion (version + 1)) w in
                  let '(err, tx, tp) := setVersion (version + 1) tx tp in
                  match err with
                  | Some e => (Err e, mkWorld (committed w) tp (calls w))
                  | None =>
                      let w := called CCommit w in
                      let (bad, tp) := fault tp in
                      if bad
                      then (Err driver_error,
                            mkWorld (committed w) tp (calls w))
                      else
                        Upgrade_loop ups fuel' (version + 1)
                          (mkWorld tx tp (calls w))
                  end
              end
          end
    end
  else (Nil, w).

(** [Container.Upgrade()], lines 177 to 207, over a given list of
    steps.  The loop runs at most [len(ups) - version] times. *)
Definition UpgradeWith (ups : list upgradeFunc) (w : World)
  : Outcome * World :=
  let '(version, err, w) := getVersion w in
  match err with
  | Some e => (Err e, w)
  | None =>
      Upgrade_loop ups (Z.to_nat (Z.of_nat (length ups) - version))
        version w
  end.

Definition Upgrade : World -> Outcome * World := UpgradeWith Upgrades.

(** A database nothing was ever created in, and a driver that never
    fails. *)
Definition empty_World : World := mkWorld [] [] [].

Definition with_tape (w : World) (tp : Tape) : World :=
  mkWorld (committed w) tp (calls w).

(** ** Vocabulary of the properties *)

(** The largest Go [int]: no slice is longer. *)
Definition max_int : Z := 9223372036854775807.

(** [v; v+1; ...], [n] of them. *)
Fixpoint seqZ (v : Z) (n : nat) : list Z :=
  match n with
  | 0 => []
  | S n' => v :: seqZ (v + 1) n'
  end.

(** The indices of the steps a sequence of calls invoked. *)
Definition migrated (cs : list Call) : list Z :=
  flat_map (fun c => match c with CMigrate i => [i] | _ => [] end) cs.

(** The calls of one iteration that goes through: one transaction
    holding the step and the write of the counter. *)
Definition tx_calls (i : Z) : list Call :=
  [CBegin; CMigrate i; CSetVersion (i + 1); CCommit].

(** The calls of the iteration at index [j] that ends the loop with an
    error: [Begin] failed; or the step failed and its transaction was
    rolled back; or the step went through and the write of the counter
    or the commit failed. *)
Definition failed_calls (j : Z) (cs : list Call) : Prop :=
  cs = [CBegin] \/
  cs = [CBegin; CMigrate j; CRollback] \/
  cs = [CBegin; CMigrate j; CSetVersion (j + 1)] \/
  cs = [CBegin; CMigrate j; CSetVersion (j + 1); CCommit].

(** The driver answers the query of [getVersion], the second call of
    [Upgrade] on it. *)
Definition query_answered (tp : Tape) : Prop :=
  fst (fault (snd (fault tp))) = false.

(** *** The schema *)

(** The tables of a database that went through [Upgrade], in order of
    creation. *)
Definition catalog : list TableDef :=
  [ whatsmeow_version; whatsmeow_device; whatsmeow_identity_keys;
    whatsmeow_pre_keys; whatsmeow_sessions; whatsmeow_sender_keys;
    whatsmeow_app_state_sync_keys; whatsmeow_app_state_version;
    whatsmeow_app_state_mutation_macs; whatsmeow_contacts;
    whatsmeow_chat_settings ].

(** No column of a primary key holds NULL. *)
Definition pk_ok (db : Database) : bool :=
  forallb
    (fun tbl =>
       forallb
         (fun r =>
            forallb (fun c => negb (is_null (row_get r c)))
              (primary_key (tdef tbl)))
         (trows tbl))
    db.

(** Every foreign key of every row is satisfied. *)
Definition fk_ok (db : Database) : bool :=
  forallb
    (fun tbl =>
       forallb
         (fun fk => forallb (fun r => fk_satisfied db fk r) (trows tbl))
         (foreign_keys (tdef tbl)))
    db.

(** The dependent tables, each with the column that names the device. *)
Definition device_keyed : list (string * string) :=
  [ ("whatsmeow_identity_keys", "our_jid");
    ("whatsmeow_sessions", "our_jid");
    ("whatsmeow_pre_keys", "jid");
    ("whatsmeow_sender_keys", "our_jid");
    ("whatsmeow_app_state_sync_keys", "jid");
    ("whatsmeow_app_state_version", "jid");
    ("whatsmeow_app_state_mutation_macs", "jid");
    ("whatsmeow_contacts", "our_jid");
    ("whatsmeow_chat_settings", "our_jid") ].

(** The device rows of [jid]. *)
Definition victim (jid : string) (r : Row) : bool :=
  Value_eqb (row_get r "jid") (VText jid).

(** Modelled from the spec: [DeviceContainer.DeleteDevice] is declared
    in store.go but the statement it runs is not among the sources.
    Deleting a device is the deletion of its rows from
    [whatsmeow_device]; the dependent rows follow by the foreign keys
    of the schema. *)
Definition delete_device (db : Database) (jid : string) : error + Database :=
  delete_where db "whatsmeow_device" (victim jid).

(** The two foreign keys of the schema: to the device table, from
    column [c]; to the app-state version table. *)
Definition to_device (c : string) : ForeignKey :=
  cascade_fk [c] "whatsmeow_device" ["jid"].

Definition to_version : ForeignKey :=
  cascade_fk ["jid"; "name"] "whatsmeow_app_state_version" ["jid"; "name"].

(** The rows of a dependent table that do not reference, through
    [fk], one of the rows [gone]. *)
Definition survivors (fk : ForeignKey) (gone rs : list Row) : list Row :=
  filter (fun r => negb (existsb (references fk r) gone)) rs.

(** The fixed-size byte fields as the specification lists them: table,
    column, length. *)
Definition fixed_size_fields : list (string * string * Z) :=
  [ ("whatsmeow_device", "noise_key", 32%Z);
    ("whatsmeow_device", "identity_key", 32%Z);
    ("whatsmeow_device", "signed_pre_key", 32%Z);
    ("whatsmeow_pre_keys", "key", 32%Z);
    ("whatsmeow_identity_keys", "identity", 32%Z);
    ("whatsmeow_app_state_mutation_macs", "index_mac", 32%Z);
    ("whatsmeow_app_state_mutation_macs", "value_mac", 32%Z);
    ("whatsmeow_device", "adv_key", 32%Z);
    ("whatsmeow_device", "signed_pre_key_sig", 64%Z);
    ("whatsmeow_device", "adv_account_sig", 64%Z);
    ("whatsmeow_device", "adv_device_sig", 64%Z);
    ("whatsmeow_app_state_version", "hash", 128%Z) ].

(** The columns a schema declares with [CHECK ( length(col) = n )]. *)
Definition length_checked (schema : list TableDef)
  : list (string * string * Z) :=
  flat_map
    (fun def =>
       flat_map
         (fun c =>
            match col_check c with
            | Some (CheckLength n) => [(table_name def, col_name c, n)]
            | _ => []
            end)
         (columns def))
    schema.

(** A write of a byte string of another length than [n] into column
    [c] of table [t] is refused. *)
Definition length_enforced (db : Database) (t c : string) (n : Z) : Prop :=
  forall r b,
    row_find r c = Some (VBytes b) ->
    Z.of_nat (length b) <> n ->
    exists e, insert db t r = inl e.

(** The schema as a fault-free [Upgrade] leaves it on an empty
    database. *)
Definition upgraded_db : Database := committed (snd (Upgrade empty_World)).

(** ** Sample data *)

(** A device row that satisfies every constraint of the table, with
    the given [adv_key]. *)
Definition device_row (jid : string) (adv_key : list byte) : Row :=
  [ ("jid", VText jid);
    ("registration_id", VInt 7);
    ("noise_key", VBytes (repeat Byte.x01 32));
    ("identity_key", VBytes (repeat Byte.x02 32));
    ("signed_pre_key", VBytes (repeat Byte.x03 32));
    ("signed_pre_key_id", VInt 1);
    ("signed_pre_key_sig", VBytes (repeat Byte.x04 64));
    ("adv_key", VBytes adv_key);
    ("adv_details", VBytes []);
    ("adv_account_sig", VBytes (repeat Byte.x06 64));
    ("adv_device_sig", VBytes (repeat Byte.x07 64)) ].

(** The same with an [adv_key] of a single byte. *)
Definition short_adv_key_device : Row :=
  device_row "1234@s.whatsapp.net" [Byte.x05].

(** The rows that are accepted, inserted in order. *)
Definition insert_all (db : Database) (l : list (string * Row)) : Database :=
  fold_left
    (fun d p =>
       match insert d (fst p) (snd p) with
       | inr d' => d'
       | inl _ => d
       end)
    l db.

(** Two devices, each with rows in the dependent tables. *)
Definition sample_db : Database :=
  insert_all upgraded_db
    [ ("whatsmeow_device", device_row "alice" (repeat Byte.x05 32));
      ("whatsmeow_device", device_row "bob" (repeat Byte.x05 32));
      ("whatsmeow_identity_keys",
       [("our_jid", VText "alice"); ("their_id", VText "carol");
        ("identity", VBytes (repeat Byte.x08 32))]);
      ("whatsmeow_identity_keys",
       [("our_jid", VText "bob"); ("their_id", VText "carol");
        ("identity", VBytes (repeat Byte.x08 32))]);
      ("whatsmeow_sessions",
       [("our_jid", VText "alice"); ("their_id", VText "carol");
        ("session", VBytes [Byte.x09])]);
      ("whatsmeow_app_state_version",
       [("jid", VText "alice"); ("name", VText "regular");
        ("version", VInt 3); ("hash", VBytes (repeat Byte.x0a 128))]);
      ("whatsmeow_app_state_version",
       [("jid", VText "bob"); ("name", VText "regular");
        ("version", VInt 1); ("hash", VBytes (repeat Byte.x0a 128))]);
      ("whatsmeow_app_state_mutation_macs",
       [("jid", VText "alice"); ("name", VText "regular");
        ("version", VInt 3); ("index_mac", VBytes (repeat Byte.x0b 32));
        ("value_mac", VBytes (repeat Byte.x0c 32))]);
      ("whatsmeow_app_state_mutation_macs",
       [("jid", VText "bob"); ("name", VText "regular");
        ("version", VInt 1); ("index_mac", VBytes (repeat Byte.x0b 32));
        ("value_mac", VBytes (repeat Byte.x0c 32))]);
      ("whatsmeow_contacts",
       [("our_jid", VText "alice"); ("their_jid", VText "dave");
        ("push_name", VText "Dave")]);
      ("whatsmeow_chat_settings",
       [("our_jid", VText "bob"); ("chat_jid", VText "dave")]) ].


(** An upgraded database whose counter row is gone. *)
Definition lost_counter : World :=
  mkWorld (update_rows upgraded_db "whatsmeow_version" (fun _ => [])) [] [].

(** A driver that fails the second statement of the first step, the
    creation of [whatsmeow_identity_keys]: three calls of [Upgrade]
    itself, one statement, then the fault. *)
Definition identity_keys_fault : World :=
  mkWorld [] [false; false; false; false; true] [].


(** ** Further vocabulary *)

(** No fault among the next [n] calls on the driver. *)
Fixpoint no_fault (n : nat) (tp : Tape) : Prop :=
  match n with
  | O => True
  | S n' => fst (fault tp) = false /\ no_fault n' (snd (fault tp))
  end.

(** The tape after [n] calls. *)
Fixpoint after_calls (n : nat) (tp : Tape) : Tape :=
  match n with
  | O => tp
  | S n' => after_calls n' (snd (fault tp))
  end.

(** Tables as [CREATE TABLE] leaves them: no rows. *)
Definition new_tables (defs : list TableDef) : Database :=
  map (fun d => mkTable d []) defs.

(** The tables of step 0 whose creation is followed by a test of the
    error: all but [whatsmeow_identity_keys]. *)
Definition checked_tables : list TableDef :=
  [ whatsmeow_device; whatsmeow_pre_keys; whatsmeow_sessions;
    whatsmeow_sender_keys; whatsmeow_app_state_sync_keys;
    whatsmeow_app_state_version; whatsmeow_app_state_mutation_macs;
    whatsmeow_contacts; whatsmeow_chat_settings ].

(** The columns declared with [CHECK ( col >= lo AND col < hi )], lines
    20, 26 and 51: table, column, bounds. *)
Definition range_fields : list (string * string * Z * Z) :=
  [ ("whatsmeow_device", "registration_id", 0%Z, 4294967296%Z);
    ("whatsmeow_device", "signed_pre_key_id", 0%Z, 16777216%Z);
    ("whatsmeow_pre_keys", "key_id", 0%Z, 16777216%Z) ].

(** The columns of [whatsmeow_device] declared [NOT NULL] without a
    default, and those with [DEFAULT '']. *)
Definition mandatory_device_columns : list string :=
  [ "registration_id"; "noise_key"; "identity_key"; "signed_pre_key";
    "signed_pre_key_id"; "signed_pre_key_sig"; "adv_key"; "adv_details";
    "adv_account_sig"; "adv_device_sig" ].

Definition defaulted_device_columns : list string :=
  [ "platform"; "business_name"; "push_name" ].

(** The upgraded database with its counter row set to [z]. *)
Definition counter_at (z : Z) : World :=
  mkWorld
    (update_rows upgraded_db "whatsmeow_version"
       (fun _ => [[("version", VInt z)]]))
    [] [].

(** A database holding only the version table, and a driver that
    fails its fourteenth call: the [DELETE] of [setVersion] after the
    three calls of [Upgrade] and the ten statements of step 0. *)
Definition counter_write_fault : World :=
  mkWorld [mkTable whatsmeow_version []]
    (List.app (repeat false 13) [true]) [].

(** A version table that holds two rows. *)
Definition two_counters : Database :=
  [ mkTable whatsmeow_version [[("version", VInt 3)]; [("version", VInt 4)]] ].

(** *** What a run persists *)




(** The run from [w1] to [w2] invoked the [m] steps [k], [k+1], ...
    and no other. *)
Definition resumed (k : Z) (m : nat) (w1 w2 : World) : Prop :=
  exists c2 : list Call,
    calls w2 = (calls w1 ++ c2)%list /\ migrated c2 = seqZ k m.


(** The second of two runs as the specification words it: no step
    applied, the counter as it was. *)
Definition second_run_idle (w1 w2 : World) : Prop :=
  resumed (stored_version (committed w1)) 0 w1 w2 /\
  stored_version (committed w2) = stored_version (committed w1).

(** A database holding nothing but a version table that reads [z]. *)
Definition version_only (z : Z) : World :=
  mkWorld [mkTable whatsmeow_version [[("version", VInt z)]]] [] [].

End SqlStore.

(* ================================================================== *)
(** * Properties of [doHandshake]                                       *)
(* ================================================================== *)

Module HandshakeFacts.
Import Handshake.

(** Symbolic execution of the monadic body: unfold the plumbing, then
    split on every call result the control flow inspects. *)
Ltac unfold_monad :=
  unfold nh_Start, nh_Authenticate, nh_MixSharedSecretIntoKey, nh_Decrypt,
    nh_Encrypt, nh_Finish, fs_SendAndReceiveFrame, fs_SendFrame,
    keys_NewKeyPair, keys_CreateSignedPreKey, mathRand_Uint32,
    rand_Read_into, orFail, modify_Store, put_cli, put_rng, put_fs, put_nh,
    log, get, bind, throw, ret in *.

Ltac split_innermost H :=
  match type of H with
  | context [match ?x with _ => _ end] =>
      lazymatch x with
      | context [match _ with _ => _ end] => fail
      | _ => destruct x eqn:?
      end
  end.

Ltac split_run H :=
  repeat (cbn beta iota zeta delta [fst snd cli fs nh rng trace Store socket
            isExpectedDisconnect NoiseKey IdentityKey SignedPreKey
            RegistrationID AdvSecretKey set_NoiseKey set_IdentityKey
            set_SignedPreKey set_RegistrationID set_AdvSecretKey] in H;
          first [ split_innermost H
                | match type of H with
                  | (_, _) = (_, _) => inversion H; subst; clear H
                  end ]).

(** Reuse a known call result before splitting on it. *)
Ltac use_fact H :=
  match goal with
  | E : ?x = _ |- _ =>
      match type of H with
      | context [match x with _ => _ end] => rewrite E in H
      | context [if x then _ else _] => rewrite E in H
      end
  end.

Ltac run_with_facts H :=
  repeat (cbn beta iota zeta delta [fst snd cli fs nh rng trace Store socket
            isExpectedDisconnect NoiseKey IdentityKey SignedPreKey
            RegistrationID AdvSecretKey set_NoiseKey set_IdentityKey
            set_SignedPreKey set_RegistrationID set_AdvSecretKey] in H;
          first [ use_fact H
                | split_innermost H
                | match type of H with
                  | (_, _) = (_, _) => inversion H; subst; clear H
                  end ]).

Ltac start_run H :=
  unfold doHandshake, doHandshake_body in H; unfold_monad.

Lemma is_nil_false (b : option bytes) : is_nil b = false <-> b <> None.
Proof. destruct b; simpl; split; congruence. Qed.

Lemma shape_test (m : HandshakeMessage) :
  negb (len (GetEphemeral (GetServerHello m)) =? 32)
  || is_nil (GetStatic (GetServerHello m))
  || is_nil (GetPayload (GetServerHello m)) = false
  <-> well_shaped m.
Proof.
  unfold well_shaped.
  rewrite !orb_false_iff, negb_false_iff, Nat.eqb_eq, !is_nil_false.
  tauto.
Qed.

Lemma cert_parts_test (c : NoiseCertificate) :
  is_nil (GetDetails c) || is_nil (GetSignature c) = false
  <-> GetDetails c <> None /\ GetSignature c <> None.
Proof. rewrite orb_false_iff, !is_nil_false. tauto. Qed.

Lemma length_test (b : bytes) :
  negb (length b =? 32) = false <-> length b = 32.
Proof. rewrite negb_false_iff, Nat.eqb_eq. tauto. Qed.

Lemma array32_exact (l : bytes) :
  length l = 32 -> array32 (Some l) = l.
Proof. intros H. unfold array32. rewrite <- H. apply firstn_all. Qed.


Lemma copy_length dst src : length (copy dst src) = length dst.
Proof.
  unfold copy. rewrite length_app, length_firstn, length_skipn. lia.
Qed.

Section Frame.

Variables FS NH NS RNG CP : Type.
Variable ext : Externals FS NH NS RNG CP.

(** C6. When [doHandshake] returns an error, [cli.socket] is what it
    was before the call.  When the error is one of those raised up to
    the decryption of the server static ciphertext (marshal or
    transport failure, malformed response, failed mix, failed decrypt),
    moreover [cli.Store] is untouched, no key material was generated
    and the random sources were not consulted. *)
Theorem doHandshake_failure_frame c f r kp e s' :
  doHandshake ext c f r kp = (Some e, s') ->
  socket (cli s') = socket c /\
  (fails_by_static_decrypt e = true ->
   Store (cli s') = Store c /\
   existsb is_keygen (trace s') = false /\
   rng s' = r).
Proof.
  intros H. start_run H. split_run H.
  all: try discriminate.
  all: split; [reflexivity | intros Hk; try discriminate Hk].
  all: repeat split; reflexivity.
Qed.

(** Up to and including the certificate check no error leaves a mark
    on the client at all. *)
Lemma doHandshake_mismatch_frame c f r kp s' :
  doHandshake ext c f r kp = (Some ErrCertKeyMismatch, s') ->
  cli s' = c /\ existsb is_keygen (trace s') = false.
Proof.
  intros H. start_run H. split_run H.
  all: try discriminate.
  all: destruct c; split; reflexivity.
Qed.

(** C7. If the server's answer parses but is not well shaped (the
    ephemeral is not 32 bytes long, or the static ciphertext or the
    certificate ciphertext is absent), [doHandshake] returns the
    "missing parts of handshake response" error, leaves the client as
    it was, and its only exchange with the network is the one
    send-and-receive of message 1: no second attempt is made. *)
Theorem doHandshake_malformed_response c f r kp data resp hm :
  response_received ext f kp data resp hm ->
  ~ well_shaped hm ->
  let run := doHandshake ext c f r kp in
  fst run = Some ErrMissingParts /\
  cli (snd run) = c /\
  trace (snd run) =
    [EvStart (NoiseStartPattern ext) (Header ext f);
     EvAuthenticate (Some (Pub kp));
     EvSendAndReceiveFrame data].
Proof.
  intros (Hm & (f' & Hs) & Hu) Hshape run.
  rewrite <- shape_test in Hshape. apply not_false_is_true in Hshape.
  unfold client_hello in Hm.
  destruct (doHandshake ext c f r kp) as [res s'] eqn:H. subst run.
  start_run H. run_with_facts H.
  destruct c. repeat split; reflexivity.
Qed.

(** X6. The malformed-response error is raised for no other reason:
    when [doHandshake] returns it, message 1 was sent, the answer
    parsed, and the answer was not well shaped. *)
Lemma doHandshake_missing_parts_inv c f r kp s' :
  doHandshake ext c f r kp = (Some ErrMissingParts, s') ->
  exists data resp hm,
    response_received ext f kp data resp hm /\ ~ well_shaped hm.
Proof.
  intros H. start_run H. split_run H.
  all: try discriminate.
  match goal with
  | Hc : _ || _ || _ = true |- _ =>
      rename Hc into Hshape
  end.
  do 3 eexists. split.
  - unfold response_received, client_hello. repeat split; eauto.
  - rewrite <- shape_test. congruence.
Qed.

(** C1. If the run reaches the comparison of the certified key with
    the decrypted server static key and the two differ, [doHandshake]
    returns the certificate-mismatch error, whose text no other error
    of the function has; [nh.Finish] has not been called, nothing was
    encrypted or sent after message 1, and the client, its socket
    included, is as it was. *)
Theorem doHandshake_certificate_mismatch c f r kp staticDecrypted certDetails :
  certificate_check_reached ext f kp staticDecrypted certDetails ->
  bytes_Equal (GetKey certDetails) (Some staticDecrypted) = false ->
  let run := doHandshake ext c f r kp in
  fst run = Some ErrCertKeyMismatch /\
  (forall e, Error e = Error ErrCertKeyMismatch -> e = ErrCertKeyMismatch) /\
  cli (snd run) = c /\
  existsb is_Finish (trace (snd run)) = false /\
  existsb is_Encrypt (trace (snd run)) = false /\
  existsb is_SendFrame (trace (snd run)) = false.
Proof.
  intros (data & resp & hm & nh1 & nh2 & nh3 & certDecrypted & nh4 & cert
          & (Hm & (f' & Hs) & Hu) & Hshape & Hmix1 & Hdec1 & Hlen & Hmix2
          & Hdec2 & Hcert & Hd & Hsig & Hdet) Hneq run.
  rewrite <- shape_test in Hshape.
  rewrite <- length_test in Hlen.
  apply negb_true_iff in Hneq.
  assert (Hparts : is_nil (GetDetails cert) || is_nil (GetSignature cert)
                   = false) by (apply cert_parts_test; tauto).
  unfold client_hello in Hm. unfold nh_after_hello in Hmix1.
  destruct (doHandshake ext c f r kp) as [res s'] eqn:H. subst run.
  start_run H. run_with_facts H.
  destruct c. repeat split; try reflexivity.
  intros e He. destruct e; try discriminate He; reflexivity.
Qed.

(** X1. A run that returns nil went through the comparison of line
    88: the server's answer was well shaped, the static key decrypted
    to 32 bytes, the certificate parsed, and the certified key was
    byte-equal to the decrypted static key; [cli.socket] is set. *)
Lemma doHandshake_success_certified c f r kp s' :
  doHandshake ext c f r kp = (None, s') ->
  socket (cli s') <> None /\
  exists staticDecrypted certDetails,
    certificate_check_reached ext f kp staticDecrypted certDetails /\
    bytes_Equal (GetKey certDetails) (Some staticDecrypted) = true.
Proof.
  intros H. start_run H. split_run H.
  all: try discriminate.
  all: split; [cbn; discriminate|].
  all: repeat match goal with
         | Hc : negb _ = false |- _ => apply negb_false_iff in Hc
         | Hc : _ || _ || _ = false |- _ =>
             apply shape_test in Hc; destruct Hc as (? & ? & ?)
         | Hc : is_nil _ || is_nil _ = false |- _ =>
             apply cert_parts_test in Hc; destruct Hc
         | Hc : (_ =? _) = true |- _ => apply Nat.eqb_eq in Hc
         end.
  all: do 2 eexists; split; [|eassumption].
  all: unfold certificate_check_reached, response_received, client_hello,
         nh_after_hello, well_shaped.
  all: do 9 eexists.
  all: repeat split; eauto.
Qed.



End Frame.

(** *** Runs against the scripted peer *)

(** An honest server: the handshake succeeds and every piece of key
    material is there afterwards. *)
Example honest_run_succeeds :
  let run := doHandshake (scripted honest) fresh_Client tt 0 ephemeral0 in
  fst run = None /\
  socket (cli (snd run)) = Some tt /\
  key_material_complete (Store (cli (snd run))).
Proof.
  vm_compute. repeat split; try discriminate.
  eexists. split; reflexivity.
Qed.

(** A certificate for another key than the decrypted static key. *)
Lemma doHandshake_certificate_mismatch_witness :
  let run := doHandshake (scripted mismatched) fresh_Client tt 0 ephemeral0 in
  fst run = Some ErrCertKeyMismatch /\
  cli (snd run) = fresh_Client /\
  existsb is_Finish (trace (snd run)) = false.
Proof.
  assert (Hreach : certificate_check_reached (scripted mismatched) tt
                     ephemeral0 (key_of 100)
                     (mkNoiseCertificateDetails None None None None
                        (Some (key_of 102)))).
  { exists [], [], hello_ok, tt, tt, tt, (key_of 101), tt,
      (mkNoiseCertificate (Some (key_of 101)) (Some [])).
    unfold response_received, well_shaped.
    repeat split; try (vm_compute; reflexivity);
      try (vm_compute; discriminate).
    exists tt. vm_compute. reflexivity. }
  assert (Hneq : bytes_Equal
                   (GetKey (mkNoiseCertificateDetails None None None None
                              (Some (key_of 102))))
                   (Some (key_of 100)) = false)
    by (vm_compute; reflexivity).
  destruct (@doHandshake_certificate_mismatch _ _ _ _ _ (scripted mismatched)
              fresh_Client tt 0 ephemeral0 _ _ Hreach Hneq)
    as (He & _ & Hc & Hf & _).
  exact (conj He (conj Hc Hf)).
Defined.

(** A 31-byte server ephemeral. *)
Lemma doHandshake_malformed_response_witness :
  let run := doHandshake (scripted malformed) fresh_Client tt 0 ephemeral0 in
  fst run = Some ErrMissingParts /\
  count is_network (trace (snd run)) = 1.
Proof.
  assert (Hresp : response_received (scripted malformed) tt ephemeral0
                    [] [] hello_short).
  { unfold response_received.
    repeat split; try (vm_compute; reflexivity).
    exists tt. vm_compute. reflexivity. }
  assert (Hbad : ~ well_shaped hello_short).
  { intros (Hlen & _). vm_compute in Hlen. discriminate Hlen. }
  destruct (@doHandshake_malformed_response _ _ _ _ _ (scripted malformed)
              fresh_Client tt 0 ephemeral0 _ _ _ Hresp Hbad)
    as (He & _ & Ht).
  split; [exact He | ]. rewrite Ht. vm_compute. reflexivity.
Defined.

(** The same malformed answer, seen from the caller: nothing changed. *)
Lemma doHandshake_failure_frame_witness :
  let run := doHandshake (scripted malformed) fresh_Client tt 0 ephemeral0 in
  socket (cli (snd run)) = None /\
  Store (cli (snd run)) = fresh_Device.
Proof.
  assert (Hrun : doHandshake (scripted malformed) fresh_Client tt 0 ephemeral0
                 = (Some ErrMissingParts,
                    snd (doHandshake (scripted malformed) fresh_Client tt 0
                           ephemeral0)))
    by (vm_compute; reflexivity).
  destruct (doHandshake_failure_frame _ _ _ _ _ Hrun) as (Hs & Hk).
  exact (conj Hs (proj1 (Hk eq_refl))).
Defined.



End HandshakeFacts.

(* ================================================================== *)
(** * Properties of the schema and of [Upgrade]                         *)
(* ================================================================== *)

Module SqlStoreFacts.
Import SqlStore.

(** ** The engine *)

Lemma lookup_update_rows db t f :
  lookup (update_rows db t f) t =
  option_map (fun tbl => mkTable (tdef tbl) (f (trows tbl))) (lookup db t).
Proof.
  unfold lookup, update_rows.
  induction db as [|tbl db IH]; simpl; [reflexivity|].
  destruct (String.eqb (table_name (tdef tbl)) t) eqn:E; simpl; rewrite E.
  - reflexivity.
  - exact IH.
Qed.

Lemma lookup_update_rows_other db t f u :
  u <> t ->
  lookup (update_rows db t f) u = lookup db u.
Proof.
  intros Hne. unfold lookup, update_rows.
  induction db as [|tbl db IH]; simpl; [reflexivity|].
  destruct (String.eqb (table_name (tdef tbl)) t) eqn:E; simpl.
  - apply String.eqb_eq in E.
    destruct (String.eqb (table_name (tdef tbl)) u) eqn:E'.
    + apply String.eqb_eq in E'. congruence.
    + exact IH.
  - destruct (String.eqb (table_name (tdef tbl)) u); [reflexivity | exact IH].
Qed.

Lemma row_get_complete def r c v :
  existsb (fun col => String.eqb (col_name col) c) (columns def) = true ->
  row_find r c = Some v ->
  row_get (complete_row def r) c = v.
Proof.
  intros Hcol Hfind. unfold row_get, row_find at 1, complete_row.
  induction (columns def) as [|col cols IH]; simpl in *; [discriminate|].
  destruct (String.eqb (col_name col) c) eqn:E.
  - apply String.eqb_eq in E. subst c. simpl. rewrite Hfind. reflexivity.
  - simpl in Hcol. apply IH, Hcol.
Qed.

Lemma in_int64_bounds z :
  (0 <= z <= max_int)%Z -> in_int64 z = true.
Proof.
  unfold in_int64, max_int. intros H.
  apply andb_true_iff. split; apply Z.leb_le; lia.
Qed.

(** A counter write that goes through leaves exactly one row, which
    scans to the value written. *)
Lemma setVersion_written x tx tp tx' tp' :
  setVersion x tx tp = (None, tx', tp') ->
  in_int64 x = true ->
  scan_version tx' = Some x.
Proof.
  unfold setVersion, tbind, tx_Exec, tret, exec_stmt, delete_all, insert.
  intros H Hx.
  destruct (fault tp) as [bad1 tp1]. destruct bad1; [discriminate|].
  destruct (lookup tx "whatsmeow_version") as [tbl|] eqn:Hl; [|discriminate].
  destruct (fault tp1) as [bad2 tp2]. destruct bad2; [discriminate|].
  rewrite lookup_update_rows, Hl in H. cbn [option_map tdef trows] in H.
  destruct (negb (forallb _ _)) eqn:Hcols in H; [discriminate|].
  destruct (negb (forallb _ (columns (tdef tbl)))) in H; [discriminate|].
  cbn [existsb andb] in H.
  destruct (negb (forallb _ (foreign_keys (tdef tbl)))) in H; [discriminate|].
  inversion H; subst; clear H.
  unfold scan_version, rows.
  rewrite !lookup_update_rows, Hl. cbn [option_map trows app].
  apply negb_false_iff in Hcols. cbn [forallb fst] in Hcols.
  rewrite andb_true_r in Hcols.
  rewrite (@row_get_complete (tdef tbl) _ "version" (VInt x)); auto.
  cbn [scan_int]. rewrite Hx. reflexivity.
Qed.

Lemma rows_update_rows db t tbl f :
  lookup db t = Some tbl ->
  rows (update_rows db t f) t = f (rows db t).
Proof.
  intros H. unfold rows. rewrite lookup_update_rows, H. reflexivity.
Qed.

(** A row that violates a column constraint is refused. *)
Lemma insert_rejects db t tbl r col :
  lookup db t = Some tbl ->
  In col (columns (tdef tbl)) ->
  column_ok (tdef tbl) col
    (row_get (complete_row (tdef tbl) r) (col_name col)) = false ->
  exists e, insert db t r = inl e.
Proof.
  intros Hl Hin Hbad. unfold insert. rewrite Hl.
  destruct (negb (forallb _ r)); [eauto|].
  assert (Hall : forallb
            (fun c => column_ok (tdef tbl) c
                        (row_get (complete_row (tdef tbl) r) (col_name c)))
            (columns (tdef tbl)) = false).
  { destruct (forallb _ (columns (tdef tbl))) eqn:E; [|reflexivity].
    rewrite forallb_forall in E. rewrite (E col Hin) in Hbad. discriminate. }
  rewrite Hall. cbn [negb]. eauto.
Qed.

Lemma in_columns_existsb (cols : list Column) col :
  In col cols ->
  existsb (fun c => String.eqb (col_name c) (col_name col)) cols = true.
Proof.
  intros H. apply existsb_exists. exists col. split; [exact H|].
  apply String.eqb_refl.
Qed.

(** Whatever the table: a column declared with
    [CHECK ( length(col) = n )] refuses byte strings of another
    length. *)
Lemma length_check_enforced db t tbl col n :
  lookup db t = Some tbl ->
  In col (columns (tdef tbl)) ->
  col_check col = Some (CheckLength n) ->
  length_enforced db t (col_name col) n.
Proof.
  intros Hl Hin Hcheck r b Hfind Hlen.
  apply (@insert_rejects db t tbl r col Hl Hin).
  rewrite (@row_get_complete (tdef tbl) r (col_name col) (VBytes b));
    [|apply in_columns_existsb, Hin | exact Hfind].
  unfold column_ok. rewrite Hcheck. cbn [check_ok].
  apply Z.eqb_neq in Hlen. rewrite Hlen. apply andb_false_r.
Qed.

(** The version table has no primary key: it takes a row equal to
    one it holds. *)
Example insert_without_key :
  exists db',
    insert two_counters "whatsmeow_version" [("version"%string, VInt 3)]
    = inr db' /\
    length (rows db' "whatsmeow_version") = 3.
Proof. eexists. split; vm_compute; reflexivity. Qed.

(** An accepted row is stored with the values it was given. *)
Lemma insert_stores db t r db' :
  insert db t r = inr db' ->
  exists row,
    rows db' t = rows db t ++ [row] /\
    forall c v, row_find r c = Some v -> row_get row c = v.
Proof.
  unfold insert. intros H.
  destruct (lookup db t) as [tbl|] eqn:Hl; [|discriminate].
  destruct (negb (forallb _ r)) eqn:Hcols; [discriminate|].
  destruct (negb (forallb _ (columns (tdef tbl)))); [discriminate|].
  destruct (existsb _ (trows tbl) && _); [discriminate|].
  destruct (negb (forallb _ (foreign_keys (tdef tbl)))); [discriminate|].
  inversion H; subst; clear H.
  exists (complete_row (tdef tbl) r). split.
  - rewrite (@rows_update_rows db t tbl _ Hl). reflexivity.
  - intros c v Hfind. apply row_get_complete; [|exact Hfind].
    apply negb_false_iff in Hcols. rewrite forallb_forall in Hcols.
    unfold row_find in Hfind.
    destruct (find (fun p => String.eqb (fst p) c) r) as [p|] eqn:Hf;
      [|discriminate].
    apply find_some in Hf. destruct Hf as [Hp Hname].
    apply String.eqb_eq in Hname. subst c. apply Hcols, Hp.
Qed.

Lemma lookup_name db t tbl :
  lookup db t = Some tbl -> table_name (tdef tbl) = t.
Proof.
  unfold lookup. intros H. apply find_some in H.
  apply String.eqb_eq, H.
Qed.

(** The length checks of the schema are the fixed-size fields of the
    specification, [adv_key] excepted. *)
Lemma fixed_size_fields_checked f :
  In f fixed_size_fields ->
  f = ("whatsmeow_device", "adv_key", 32%Z)%string
  \/ In f (length_checked catalog).
Proof.
  intros H. vm_compute in H.
  repeat (destruct H as [H | H]; [subst f; vm_compute; tauto|]).
  contradiction.
Qed.

Lemma adv_key_unchecked :
  forall col, In col (columns whatsmeow_device) ->
    col_name col = "adv_key"%string ->
    col_check col = None /\ col_not_null col = true.
Proof.
  intros col H Hname. cbn in H.
  repeat (destruct H as [H | H]; [subst col; try discriminate Hname; auto|]).
  contradiction.
Qed.

Lemma catalog_names_unique d1 d2 :
  In d1 catalog -> In d2 catalog ->
  table_name d1 = table_name d2 -> d1 = d2.
Proof.
  unfold catalog. cbn [In]. intros H1 H2 Hname.
  repeat (destruct H1 as [H1 | H1]; [subst d1|]); try contradiction;
    repeat (destruct H2 as [H2 | H2]; [subst d2|]); try contradiction;
    first [reflexivity | discriminate Hname].
Qed.

Lemma length_checked_column def t c n :
  In def catalog ->
  table_name def = t ->
  In (t, c, n) (length_checked catalog) ->
  exists col, In col (columns def) /\ col_name col = c /\
              col_check col = Some (CheckLength n).
Proof.
  intros Hdef Hname Hin. unfold length_checked in Hin.
  apply in_flat_map in Hin. destruct Hin as (def' & Hdef' & Hin).
  apply in_flat_map in Hin. destruct Hin as (col & Hcol & Hin).
  destruct (col_check col) as [[n' | lo hi] |] eqn:Hcheck;
    cbn [In] in Hin; try contradiction.
  destruct Hin as [Heq | []]. inversion Heq; subst.
  assert (def' = def) by (apply catalog_names_unique; auto).
  subst def'. exists col. auto.
Qed.

(** C8, as the code has it.  For every fixed-size byte field of the
    specification other than [adv_key], in a database holding the
    table as the schema declares it, a write of a byte string of
    another length is refused, and a row that is accepted is stored
    with the values it was given.  ([adv_key] is declared
    [bytea NOT NULL] and nothing more, see [adv_key_unchecked].) *)
Theorem fixed_size_fields_enforced db t c n tbl :
  lookup db t = Some tbl ->
  In (tdef tbl) catalog ->
  In (t, c, n) fixed_size_fields ->
  (t, c) <> ("whatsmeow_device", "adv_key")%string ->
  length_enforced db t c n /\
  forall r db',
    insert db t r = inr db' ->
    exists row,
      rows db' t = rows db t ++ [row] /\
      forall col v, row_find r col = Some v -> row_get row col = v.
Proof.
  intros Hl Hcat Hfield Hadv. split; [|intros r db'; apply insert_stores].
  destruct (@fixed_size_fields_checked _ Hfield) as [Heq | Hchecked].
  { inversion Heq; subst. contradiction Hadv. reflexivity. }
  destruct (@length_checked_column (tdef tbl) t c n Hcat (@lookup_name db t tbl Hl) Hchecked)
    as (col & Hin & Hname & Hcheck).
  subst c. exact (@length_check_enforced db t tbl col n Hl Hin Hcheck).
Qed.

Lemma catalog_shape db :
  map tdef db = catalog ->
  exists r0 r1 r2 r3 r4 r5 r6 r7 r8 r9 r10,
    db = [ mkTable whatsmeow_version r0; mkTable whatsmeow_device r1;
           mkTable whatsmeow_identity_keys r2; mkTable whatsmeow_pre_keys r3;
           mkTable whatsmeow_sessions r4; mkTable whatsmeow_sender_keys r5;
           mkTable whatsmeow_app_state_sync_keys r6;
           mkTable whatsmeow_app_state_version r7;
           mkTable whatsmeow_app_state_mutation_macs r8;
           mkTable whatsmeow_contacts r9; mkTable whatsmeow_chat_settings r10 ].
Proof.
  unfold catalog. intros H.
  repeat (destruct db as [|[? ?] db]; cbn [map tdef] in H;
          [discriminate H|];
          injection H as ? H; subst).
  destruct db; [|discriminate H].
  repeat eexists.
Qed.

Section Cascade.

Variable jid : string.

Lemma delete_device_computed r0 r1 r2 r3 r4 r5 r6 r7 r8 r9 r10 :
  let gone := filter (victim jid) r1 in
  let gone_versions :=
    filter (fun r => existsb (references (to_device "jid") r) gone) r7 in
  delete_device
    [ mkTable whatsmeow_version r0; mkTable whatsmeow_device r1;
      mkTable whatsmeow_identity_keys r2; mkTable whatsmeow_pre_keys r3;
      mkTable whatsmeow_sessions r4; mkTable whatsmeow_sender_keys r5;
      mkTable whatsmeow_app_state_sync_keys r6;
      mkTable whatsmeow_app_state_version r7;
      mkTable whatsmeow_app_state_mutation_macs r8;
      mkTable whatsmeow_contacts r9; mkTable whatsmeow_chat_settings r10 ]
    jid
  = inr
    [ mkTable whatsmeow_version r0;
      mkTable whatsmeow_device (filter (fun r => negb (victim jid r)) r1);
      mkTable whatsmeow_identity_keys (survivors (to_device "our_jid") gone r2);
      mkTable whatsmeow_pre_keys (survivors (to_device "jid") gone r3);
      mkTable whatsmeow_sessions (survivors (to_device "our_jid") gone r4);
      mkTable whatsmeow_sender_keys (survivors (to_device "our_jid") gone r5);
      mkTable whatsmeow_app_state_sync_keys
        (survivors (to_device "jid") gone r6);
      mkTable whatsmeow_app_state_version
        (survivors (to_device "jid") gone r7);
      mkTable whatsmeow_app_state_mutation_macs
        (survivors to_version gone_versions r8);
      mkTable whatsmeow_contacts (survivors (to_device "our_jid") gone r9);
      mkTable whatsmeow_chat_settings
        (survivors (to_device "our_jid") gone r10) ].
Proof.
  intros gone gone_versions. subst gone gone_versions.
  unfold delete_device, delete_where.
  lazy -[filter existsb references negb Value_eqb row_get].
  reflexivity.
Qed.

Lemma Value_eqb_eq a b : Value_eqb a b = true -> a = b.
Proof.
  destruct a, b; cbn; intros H; try discriminate; try reflexivity.
  - apply Z.eqb_eq in H. congruence.
  - apply String.eqb_eq in H. congruence.
  - destruct (list_eq_dec Byte.byte_eq_dec b0 b); [congruence | discriminate].
  - apply Bool.eqb_prop in H. congruence.
Qed.

Lemma Value_eqb_refl a : Value_eqb a a = true.
Proof.
  destruct a; cbn; auto.
  - apply Z.eqb_refl.
  - apply String.eqb_refl.
  - destruct (list_eq_dec Byte.byte_eq_dec b b); congruence.
  - destruct b; reflexivity.
Qed.

Lemma fk_ok_row db tbl fk r :
  fk_ok db = true ->
  In tbl db -> In fk (foreign_keys (tdef tbl)) -> In r (trows tbl) ->
  fk_satisfied db fk r = true.
Proof.
  unfold fk_ok. intros H Ht Hfk Hr.
  rewrite forallb_forall in H. specialize (H tbl Ht).
  rewrite forallb_forall in H. specialize (H fk Hfk).
  rewrite forallb_forall in H. exact (H r Hr).
Qed.

Lemma pk_ok_row db tbl c r :
  pk_ok db = true ->
  In tbl db -> In c (primary_key (tdef tbl)) -> In r (trows tbl) ->
  is_null (row_get r c) = false.
Proof.
  unfold pk_ok. intros H Ht Hc Hr.
  rewrite forallb_forall in H. specialize (H tbl Ht).
  rewrite forallb_forall in H. specialize (H r Hr).
  rewrite forallb_forall in H. apply negb_true_iff. exact (H c Hc).
Qed.

(** A row that names the device and whose foreign key to the device
    table is satisfied references a device row that is deleted. *)
Lemma references_deleted_device c devices r :
  row_get r c = VText jid ->
  existsb is_null (key [c] r)
  || existsb (references (to_device c) r) devices = true ->
  existsb (references (to_device c) r) (filter (victim jid) devices) = true.
Proof.
  intros Hjid Hfk. cbn [key map existsb] in Hfk.
  rewrite Hjid in Hfk. cbn [is_null orb] in Hfk.
  apply existsb_exists in Hfk. destruct Hfk as (p & Hp & Href).
  apply existsb_exists. exists p. split; [|exact Href].
  apply filter_In. split; [exact Hp|].
  unfold references, to_device, cascade_fk in Href.
  cbn [fk_columns fk_ref_columns key map key_eqb forallb] in Href.
  rewrite Hjid in Href. cbn [is_null negb andb] in Href.
  rewrite andb_true_r in Href.
  apply Value_eqb_eq in Href. unfold victim. rewrite <- Href.
  apply Value_eqb_refl.
Qed.

Lemma survivor_not_keyed c devices rs r :
  (forall x, In x rs ->
     existsb is_null (key [c] x)
     || existsb (references (to_device c) x) devices = true) ->
  In r (survivors (to_device c) (filter (victim jid) devices) rs) ->
  row_get r c <> VText jid.
Proof.
  intros Hfk Hin Hjid. unfold survivors in Hin.
  apply filter_In in Hin. destruct Hin as [Hr Hkeep].
  rewrite (references_deleted_device c devices r Hjid (Hfk r Hr)) in Hkeep.
  discriminate Hkeep.
Qed.

Lemma mac_survivor_not_keyed devices versions macs r :
  (forall x, In x versions ->
     existsb is_null (key ["jid"%string] x)
     || existsb (references (to_device "jid") x) devices = true) ->
  (forall x, In x macs ->
     existsb is_null (key ["jid"; "name"]%string x)
     || existsb (references to_version x) versions = true) ->
  (forall x, In x macs -> is_null (row_get x "name") = false) ->
  In r (survivors to_version
          (filter (fun x => existsb (references (to_device "jid") x)
                              (filter (victim jid) devices)) versions)
          macs) ->
  row_get r "jid" <> VText jid.
Proof.
  intros Hv Hm Hname Hin Hjid. unfold survivors in Hin.
  apply filter_In in Hin. destruct Hin as [Hr Hkeep].
  apply negb_true_iff in Hkeep.
  assert (Href : existsb (references to_version r) versions = true).
  { specialize (Hm r Hr). cbn [key map existsb] in Hm.
    rewrite Hjid, (Hname r Hr) in Hm. exact Hm. }
  apply existsb_exists in Href. destruct Href as (p & Hp & Href).
  assert (Hpj : row_get p "jid" = VText jid).
  { unfold references, to_version, cascade_fk in Href.
    cbn [fk_columns fk_ref_columns key map key_eqb forallb] in Href.
    rewrite Hjid in Href. cbn [is_null negb andb] in Href.
    apply andb_true_iff in Href. destruct Href as [_ Href].
    apply andb_true_iff in Href. destruct Href as [Href _].
    apply Value_eqb_eq in Href. congruence. }
  assert (Hgone : existsb (references to_version r)
            (filter (fun x => existsb (references (to_device "jid") x)
                                (filter (victim jid) devices)) versions) = true).
  { apply existsb_exists. exists p. split; [|exact Href].
    apply filter_In. split; [exact Hp|].
    apply references_deleted_device; auto. }
  congruence.
Qed.

End Cascade.

(** C9. In a database with the tables of the schema, whose primary
    keys hold no NULL and whose foreign keys are satisfied, deleting
    the device rows of [jid] succeeds and leaves no row naming [jid]
    in the device table nor in any of the nine dependent tables; the
    mutation MACs go with the app-state versions they reference. *)
Theorem delete_device_cascades db jid :
  map tdef db = catalog ->
  pk_ok db = true ->
  fk_ok db = true ->
  exists db',
    delete_device db jid = inr db' /\
    map tdef db' = catalog /\
    (forall r, In r (rows db' "whatsmeow_device"%string) ->
               row_get r "jid"%string <> VText jid) /\
    forall t c, In (t, c) device_keyed ->
      forall r, In r (rows db' t) -> row_get r c <> VText jid.
Proof.
  intros Hcat Hpk Hfk.
  destruct (catalog_shape _ Hcat)
    as (r0 & r1 & r2 & r3 & r4 & r5 & r6 & r7 & r8 & r9 & r10 & ->).
  eexists. split; [apply delete_device_computed|].
  split; [reflexivity|]. split.
  - intros r Hr. cbn in Hr. apply filter_In in Hr. destruct Hr as [_ Hr].
    intros Hjid. unfold victim in Hr. rewrite Hjid, Value_eqb_refl in Hr.
    discriminate Hr.
  - assert (Hrow : forall tbl fk r,
               In tbl _ -> In fk (foreign_keys (tdef tbl)) ->
               In r (trows tbl) -> fk_satisfied _ fk r = true)
      by (intros tbl fk r; apply (@fk_ok_row _ tbl fk r Hfk)).
    intros t c Hin. unfold device_keyed in Hin. cbn [In] in Hin.
    repeat (destruct Hin as [Hin | Hin];
      [ inversion Hin; subst t c; clear Hin; intros r Hr; cbn in Hr | ]);
      try contradiction.
    + eapply (@survivor_not_keyed jid "our_jid"%string r1); [|exact Hr].
      intros x Hx.
      apply (Hrow (mkTable whatsmeow_identity_keys r2)
               (to_device "our_jid"%string) x); cbn; auto 20.
    + eapply (@survivor_not_keyed jid "our_jid"%string r1); [|exact Hr].
      intros x Hx.
      apply (Hrow (mkTable whatsmeow_sessions r4)
               (to_device "our_jid"%string) x); cbn; auto 20.
    + eapply (@survivor_not_keyed jid "jid"%string r1); [|exact Hr].
      intros x Hx.
      apply (Hrow (mkTable whatsmeow_pre_keys r3)
               (to_device "jid"%string) x); cbn; auto 20.
    + eapply (@survivor_not_keyed jid "our_jid"%string r1); [|exact Hr].
      intros x Hx.
      apply (Hrow (mkTable whatsmeow_sender_keys r5)
               (to_device "our_jid"%string) x); cbn; auto 20.
    + eapply (@survivor_not_keyed jid "jid"%string r1); [|exact Hr].
      intros x Hx.
      apply (Hrow (mkTable whatsmeow_app_state_sync_keys r6)
               (to_device "jid"%string) x); cbn; auto 20.
    + eapply (@survivor_not_keyed jid "jid"%string r1); [|exact Hr].
      intros x Hx.
      apply (Hrow (mkTable whatsmeow_app_state_version r7)
               (to_device "jid"%string) x); cbn; auto 20.
    + eapply (@mac_survivor_not_keyed jid r1 r7 r8); [| | |exact Hr].
      * intros x Hx.
        apply (Hrow (mkTable whatsmeow_app_state_version r7)
                 (to_device "jid"%string) x); cbn; auto 20.
      * intros x Hx.
        apply (Hrow (mkTable whatsmeow_app_state_mutation_macs r8)
                 to_version x); cbn; auto 20.
      * intros x Hx.
        apply (@pk_ok_row _ (mkTable whatsmeow_app_state_mutation_macs r8)
                 "name"%string x Hpk); cbn; auto 20.
    + eapply (@survivor_not_keyed jid "our_jid"%string r1); [|exact Hr].
      intros x Hx.
      apply (Hrow (mkTable whatsmeow_contacts r9)
               (to_device "our_jid"%string) x); cbn; auto 20.
    + eapply (@survivor_not_keyed jid "our_jid"%string r1); [|exact Hr].
      intros x Hx.
      apply (Hrow (mkTable whatsmeow_chat_settings r10)
               (to_device "our_jid"%string) x); cbn; auto 20.
Qed.

(** ** The migrator *)

Local Open Scope Z_scope.

Lemma index_in_range (ups : list upgradeFunc) v :
  0 <= v < Z.of_nat (length ups) -> exists f, index ups v = Some f.
Proof.
  intros [H0 H1]. unfold index.
  destruct (v <? 0) eqn:E; [apply Z.ltb_lt in E; lia|].
  destruct (nth_error ups (Z.to_nat v)) eqn:En; [eauto|].
  apply nth_error_None in En. lia.
Qed.

Lemma index_firstn (ups : list upgradeFunc) v k :
  0 <= v < k ->
  index (firstn (Z.to_nat k) ups) v = index ups v.
Proof.
  intros H. unfold index. destruct (v <? 0); [reflexivity|].
  rewrite nth_error_firstn.
  destruct (Nat.ltb_spec (Z.to_nat v) (Z.to_nat k)); [reflexivity | lia].
Qed.

Lemma guard_firstn (ups : list upgradeFunc) v k :
  0 <= v ->
  (v <? Z.of_nat (length (firstn (Z.to_nat k) ups))) =
  (v <? k) && (v <? Z.of_nat (length ups)).
Proof.
  intros H. rewrite length_firstn.
  destruct (v <? k) eqn:E1, (v <? Z.of_nat (length ups)) eqn:E2; simpl;
    rewrite ?Z.ltb_lt, ?Z.ltb_ge in *; lia.
Qed.


(** What a run of the loop does, whatever the driver answers. *)
Lemma Upgrade_loop_run (ups : list upgradeFunc) : forall fuel v w o w',
  0 <= v ->
  Z.of_nat (length ups) <= max_int ->
  Z.of_nat (length ups) - v <= Z.of_nat fuel ->
  Upgrade_loop ups fuel v w = (o, w') ->
  exists (n : nat) (rest : list Call),
    calls w' = calls w ++ flat_map tx_calls (seqZ v n) ++ rest /\
    match o with
    | Nil => rest = [] /\ Z.of_nat (length ups) <= v + Z.of_nat n
    | Err _ =>
        failed_calls (v + Z.of_nat n) rest /\
        v + Z.of_nat n < Z.of_nat (length ups)
    | _ => False
    end /\
    (n = 0%nat -> committed w' = committed w) /\
    (n = 0%nat -> rest = [CBegin] -> fst (fault (tape w)) = true) /\
    ((0 < n)%nat ->
     scan_version (committed w') = Some (v + Z.of_nat n) /\
     v + Z.of_nat n <= Z.of_nat (length ups)) /\
    exists wn,
      Upgrade_loop (firstn (Z.to_nat (v + Z.of_nat n)) ups) fuel v w
        = (Nil, wn) /\
      committed wn = committed w' /\
      calls wn = calls w ++ flat_map tx_calls (seqZ v n).
Proof.
  induction fuel as [|fuel IH]; intros v w o w' Hv Hmax Hfuel Hrun.
  - (* no iteration left: the guard is false *)
    cbn [Upgrade_loop] in Hrun.
    destruct (v <? Z.of_nat (length ups)) eqn:Hg.
    { apply Z.ltb_lt in Hg. lia. }
    inversion Hrun; subst. exists 0%nat, [].
    rewrite Z.add_0_r. cbn [seqZ flat_map]. rewrite List.app_nil_r.
    apply Z.ltb_ge in Hg.
    repeat split; try lia; auto; try discriminate.
    exists w'. cbn [Upgrade_loop]. rewrite guard_firstn by lia.
    rewrite Z.ltb_irrefl. cbn [andb]. rewrite List.app_nil_r. auto.
  - cbn [Upgrade_loop] in Hrun.
    destruct (v <? Z.of_nat (length ups)) eqn:Hg.
    2:{ inversion Hrun; subst. exists 0%nat, [].
        rewrite Z.add_0_r. cbn [seqZ flat_map]. rewrite List.app_nil_r.
        apply Z.ltb_ge in Hg.
        repeat split; try lia; auto; try discriminate.
        exists w'. cbn [Upgrade_loop]. rewrite guard_firstn by lia.
        rewrite Z.ltb_irrefl. cbn [andb]. rewrite List.app_nil_r. auto. }
    apply Z.ltb_lt in Hg.
    assert (Hstop : forall w0 : World,
               Upgrade_loop (firstn (Z.to_nat (v + 0)) ups) (S fuel) v w0
               = (Nil, w0)).
    { intros w0. cbn [Upgrade_loop]. rewrite guard_firstn by lia.
      rewrite Z.add_0_r, Z.ltb_irrefl. reflexivity. }
    unfold called in Hrun. cbn [committed tape calls] in Hrun.
    destruct (fault (tape w)) as [bad tp] eqn:Hf.
    destruct bad.
    { (* Begin fails *)
      inversion Hrun; subst. exists 0%nat, [CBegin].
      cbn [seqZ flat_map committed calls Z.of_nat]; rewrite ?List.app_nil_l.
      rewrite Z.add_0_r.
      repeat split; try lia; auto; try discriminate.
      - left. reflexivity.
      - exists w. rewrite <- (Z.add_0_r v) at 1. rewrite Hstop.
        rewrite List.app_nil_r. auto. }
    destruct (index_in_range ups (v := v)) as [migrateFunc Hidx]; [lia|].
    rewrite Hidx in Hrun.
    destruct (migrateFunc (committed w) tp) as [[err tx] tp1] eqn:Hmig.
    destruct err as [e|].
    { (* the step fails: rollback *)
      destruct (fault tp1) as [b2 tp2].
      inversion Hrun; subst. exists 0%nat, [CBegin; CMigrate v; CRollback].
      cbn [seqZ flat_map committed calls Z.of_nat]; rewrite ?List.app_nil_l.
      rewrite Z.add_0_r, <- !List.app_assoc.
      repeat split; try lia; auto; try discriminate.
      - right; left. reflexivity.
      - exists w. rewrite <- (Z.add_0_r v) at 1. rewrite Hstop.
        rewrite List.app_nil_r. auto. }
    destruct (setVersion (v + 1) tx tp1) as [[err tx'] tp2] eqn:Hset.
    destruct err as [e|].
    { inversion Hrun; subst.
      exists 0%nat, [CBegin; CMigrate v; CSetVersion (v + 1)].
      cbn [seqZ flat_map committed calls Z.of_nat]; rewrite ?List.app_nil_l.
      rewrite Z.add_0_r, <- !List.app_assoc.
      repeat split; try lia; auto; try discriminate.
      - right; right; left. reflexivity.
      - exists w. rewrite <- (Z.add_0_r v) at 1. rewrite Hstop.
        rewrite List.app_nil_r. auto. }
    destruct (fault tp2) as [bad3 tp3] eqn:Hf3.
    destruct bad3.
    { inversion Hrun; subst.
      exists 0%nat, [CBegin; CMigrate v; CSetVersion (v + 1); CCommit].
      cbn [seqZ flat_map committed calls Z.of_nat]; rewrite ?List.app_nil_l.
      rewrite Z.add_0_r, <- !List.app_assoc.
      repeat split; try lia; auto; try discriminate.
      - right; right; right. reflexivity.
      - exists w. rewrite <- (Z.add_0_r v) at 1. rewrite Hstop.
        rewrite List.app_nil_r. auto. }
    (* the iteration goes through *)
    apply IH in Hrun; try lia.
    destruct Hrun as (n & rest & Hcalls & Ho & H0 & _ & Hpos & wn & Hpre & Hcn & Hcalln).
    cbn [calls committed] in *.
    assert (Hscan : scan_version tx' = Some (v + 1)).
    { eapply setVersion_written; [exact Hset|].
      apply in_int64_bounds. lia. }
    exists (S n), rest.
    replace (v + Z.of_nat (S n)) with (v + 1 + Z.of_nat n) by lia.
    cbn [seqZ flat_map]. unfold tx_calls at 1.
    split.
    { rewrite Hcalls, <- !List.app_assoc. reflexivity. }
    split; [exact Ho|].
    split; [discriminate|].
    split; [discriminate|].
    split.
    { intros _. destruct n as [|n'].
      - rewrite H0 by reflexivity. rewrite Z.add_0_r. split; [exact Hscan | lia].
      - apply Hpos. lia. }
    exists wn. split; [|split; [exact Hcn|]].
    + cbn [Upgrade_loop]. rewrite guard_firstn by lia.
      assert (Hlt : (v <? v + 1 + Z.of_nat n) = true) by (apply Z.ltb_lt; lia).
      assert (Hlt2 : (v <? Z.of_nat (length ups)) = true) by (apply Z.ltb_lt; lia).
      rewrite Hlt, Hlt2. cbn [andb].
      unfold called. cbn [committed tape calls].
      rewrite Hf, index_firstn, Hidx, Hmig, Hset, Hf3 by lia.
      exact Hpre.
    + rewrite Hcalln, <- !List.app_assoc. reflexivity.
Qed.

Lemma lookup_app_new db tbl t :
  lookup db t = None ->
  lookup (db ++ [tbl]) t =
  if String.eqb (table_name (tdef tbl)) t then Some tbl else None.
Proof.
  unfold lookup. induction db as [|x db IH]; simpl; intros H.
  - reflexivity.
  - destruct (String.eqb (table_name (tdef x)) t); [discriminate | auto].
Qed.

(** [CREATE TABLE IF NOT EXISTS whatsmeow_version] never fails in the
    engine, does not touch the rows, and is a no-op the second time. *)
Lemma create_version_table db :
  exists db',
    create_table db true whatsmeow_version = inr db' /\
    scan_version db' = scan_version db /\
    create_table db' true whatsmeow_version = inr db' /\
    (lookup db "whatsmeow_version" <> None -> db' = db).
Proof.
  unfold create_table. cbn [table_name whatsmeow_version].
  destruct (lookup db "whatsmeow_version") as [tbl|] eqn:Hl.
  - exists db. rewrite Hl. auto.
  - exists (db ++ [mkTable whatsmeow_version []]).
    rewrite (@lookup_app_new db _ _ Hl). cbn.
    repeat split; try congruence.
    unfold scan_version, rows. rewrite (@lookup_app_new db _ _ Hl), Hl. reflexivity.
Qed.

Lemma scan_version_table db z :
  scan_version db = Some z -> lookup db "whatsmeow_version" <> None.
Proof.
  unfold scan_version, rows.
  destruct (lookup db "whatsmeow_version"); [discriminate | discriminate].
Qed.

Lemma Upgrade_loop_done (ups : list upgradeFunc) fuel v w :
  Z.of_nat (length ups) <= v -> Upgrade_loop ups fuel v w = (Nil, w).
Proof.
  intros H. apply Z.ltb_ge in H.
  destruct fuel; cbn [Upgrade_loop]; rewrite H; reflexivity.
Qed.




(** What [getVersion] does, by the first two entries of the tape. *)
Lemma getVersion_run w :
  let (bad1, tp1) := fault (tape w) in
  let (bad2, tp2) := fault tp1 in
  if bad1
  then getVersion w
       = (-1, Some driver_error,
          mkWorld (committed w) tp1 (calls w ++ [CCreateVersionTable]))
  else exists db,
      create_table (committed w) true whatsmeow_version = inr db /\
      scan_version db = scan_version (committed w) /\
      create_table db true whatsmeow_version = inr db /\
      (lookup (committed w) "whatsmeow_version" <> None -> db = committed w) /\
      getVersion w
      = ((if bad2 then 0 else stored_version (committed w)), None,
         mkWorld db tp2
           (calls w ++ [CCreateVersionTable; CQueryVersion])).
Proof.
  unfold getVersion, called. cbn [tape committed calls].
  destruct (fault (tape w)) as [bad1 tp1].
  destruct (fault tp1) as [bad2 tp2] eqn:Hf2.
  destruct bad1; [reflexivity|].
  destruct (create_version_table (committed w)) as (db & Hc & Hs & Hi & Hsame).
  exists db. rewrite Hc. cbn [tape committed calls].
  repeat split; auto.
  rewrite <- List.app_assoc. cbn [app].
  unfold stored_version. rewrite Hs.
  destruct bad2; reflexivity.
Qed.

(** The iteration whose step returns an error: the transaction is
    rolled back, that error is returned, nothing is committed. *)
Lemma Upgrade_loop_step_fails (ups : list upgradeFunc) fuel j w tp f e tx tp' :
  j < Z.of_nat (length ups) ->
  fault (tape w) = (false, tp) ->
  index ups j = Some f ->
  f (committed w) tp = (Some e, tx, tp') ->
  Upgrade_loop ups (S fuel) j w
  = (Err e,
     mkWorld (committed w) (snd (fault tp'))
       (calls w ++ [CBegin; CMigrate j; CRollback])).
Proof.
  intros Hj Hf Hidx Hstep. cbn [Upgrade_loop].
  apply Z.ltb_lt in Hj. rewrite Hj.
  unfold called. cbn [committed tape calls].
  rewrite Hf, Hidx, Hstep.
  destruct (fault tp') as [b tp'']. cbn [snd].
  rewrite <- !List.app_assoc. reflexivity.
Qed.

(** With enough fuel the loop does not depend on it. *)
Lemma Upgrade_loop_fuel (ups : list upgradeFunc) : forall f1 f2 v w,
  Z.of_nat (length ups) - v <= Z.of_nat f1 ->
  Z.of_nat (length ups) - v <= Z.of_nat f2 ->
  Upgrade_loop ups f1 v w = Upgrade_loop ups f2 v w.
Proof.
  induction f1 as [|f1 IH]; intros [|f2] v w H1 H2; cbn [Upgrade_loop];
    destruct (v <? Z.of_nat (length ups)) eqn:Hg; try reflexivity;
    try (apply Z.ltb_lt in Hg; lia).
  apply Z.ltb_lt in Hg.
  destruct (fault (tape (called CBegin w))) as [bad tp].
  destruct bad; [reflexivity|].
  destruct (index ups v) as [migrateFunc|]; [|reflexivity].
  destruct (migrateFunc _ tp) as [[err tx] tp1].
  destruct err; [reflexivity|].
  destruct (setVersion (v + 1) tx tp1) as [[err tx'] tp2].
  destruct err; [reflexivity|].
  destruct (fault tp2) as [bad3 tp3].
  destruct bad3; [reflexivity|].
  apply IH; lia.
Qed.

(** A run of [UpgradeWith]: either creating the version table fails and
    nothing else happens, or the counter is read and the loop runs
    from it. *)
Lemma UpgradeWith_run (ups : list upgradeFunc) w o w2 :
  Z.of_nat (length ups) <= max_int ->
  0 <= stored_version (committed w) ->
  UpgradeWith ups w = (o, w2) ->
  (fst (fault (tape w)) = true /\
   o = Err driver_error /\
   committed w2 = committed w /\
   calls w2 = calls w ++ [CCreateVersionTable])
  \/
  (fst (fault (tape w)) = false /\
   exists v w0 (n : nat) rest,
     getVersion w = (v, None, w0) /\
     v = (if fst (fault (snd (fault (tape w)))) then 0
          else stored_version (committed w)) /\
     scan_version (committed w0) = scan_version (committed w) /\
     create_table (committed w0) true whatsmeow_version
       = inr (committed w0) /\
     tape w0 = snd (fault (snd (fault (tape w)))) /\
     calls w2 = calls w ++ [CCreateVersionTable; CQueryVersion]
                  ++ flat_map tx_calls (seqZ v n) ++ rest /\
     match o with
     | Nil => rest = [] /\ Z.of_nat (length ups) <= v + Z.of_nat n
     | Err _ =>
         failed_calls (v + Z.of_nat n) rest /\
         v + Z.of_nat n < Z.of_nat (length ups)
     | _ => False
     end /\
     (n = 0%nat -> committed w2 = committed w0) /\
     (n = 0%nat -> rest = [CBegin] -> fst (fault (tape w0)) = true) /\
     ((0 < n)%nat ->
      scan_version (committed w2) = Some (v + Z.of_nat n) /\
      v + Z.of_nat n <= Z.of_nat (length ups)) /\
     exists wn,
       UpgradeWith (firstn (Z.to_nat (v + Z.of_nat n)) ups) w = (Nil, wn) /\
       committed wn = committed w2).
Proof.
  intros Hmax Hsane Hrun. unfold UpgradeWith in Hrun.
  pose proof (getVersion_run w) as Hg.
  destruct (fault (tape w)) as [bad1 tp1]. cbn [fst snd].
  destruct (fault tp1) as [bad2 tp2]. cbn [fst snd].
  destruct bad1.
  - left. rewrite Hg in Hrun. inversion Hrun; subst. auto.
  - right. split; [reflexivity|].
    destruct Hg as (db & Hc & Hs & Hi & _ & Hg).
    rewrite Hg in Hrun.
    set (v := if bad2 then 0 else stored_version (committed w)) in *.
    assert (Hv : 0 <= v) by (subst v; destruct bad2; lia).
    apply Upgrade_loop_run in Hrun; try lia.
    destruct Hrun as (n & rest & Hcalls & Ho & H0 & Hb & Hpos & wn & Hpre
                      & Hcn & _).
    cbn [calls committed tape] in *.
    exists v, (mkWorld db tp2 (calls w ++ [CCreateVersionTable; CQueryVersion])),
      n, rest.
    cbn [calls committed tape].
    split; [exact Hg|]. split; [reflexivity|]. split; [exact Hs|].
    split; [exact Hi|]. split; [reflexivity|].
    split; [rewrite Hcalls, <- !List.app_assoc; reflexivity|].
    split; [exact Ho|]. split; [exact H0|]. split; [exact Hb|].
    split; [exact Hpos|].
    exists wn. split; [|exact Hcn].
    unfold UpgradeWith. rewrite Hg. fold v.
    rewrite <- Hpre. apply Upgrade_loop_fuel.
    + lia.
    + rewrite length_firstn. lia.
Qed.

Lemma stored_of_scan db z : scan_version db = Some z -> stored_version db = z.
Proof. unfold stored_version. intros ->. reflexivity. Qed.

Lemma stored_eq db db' :
  scan_version db' = scan_version db -> stored_version db' = stored_version db.
Proof. unfold stored_version. intros ->. reflexivity. Qed.



Section Migrator.

Variable ups : list upgradeFunc.
Hypothesis ups_len : Z.of_nat (length ups) <= max_int.


(** C5, as the code has it.  After a run of [Upgrade] that returned
    nil the counter is at least the number of steps, and a second run
    over the same list whose counter query the driver answers begins
    no transaction, invokes no step, and leaves the database, hence
    the counter, as it was; it returns nil unless the driver fails its
    first statement. *)
Theorem Upgrade_twice w w1 tp2 :
  0 <= stored_version (committed w) ->
  UpgradeWith ups w = (Nil, w1) ->
  query_answered tp2 ->
  let run2 := UpgradeWith ups (with_tape w1 tp2) in
  Z.of_nat (length ups) <= stored_version (committed w1) /\
  (exists c2, calls (snd run2) = calls w1 ++ c2 /\
              migrated c2 = [] /\ ~ In CBegin c2) /\
  committed (snd run2) = committed w1 /\
  stored_version (committed (snd run2)) = stored_version (committed w1) /\
  (fst run2 = Nil \/ fst run2 = Err driver_error /\ fst (fault tp2) = true).
Proof.
  intros Hsane Hrun Hq2 run2.
  assert (Hdone : Z.of_nat (length ups) <= stored_version (committed w1) /\
                  create_table (committed w1) true whatsmeow_version
                  = inr (committed w1)).
  { destruct (@UpgradeWith_run _ _ _ _ ups_len Hsane Hrun)
      as [(_ & Ho & _) | (_ & v & w0 & n & rest & _ & Hv & Hs & Hi & _ & _
                          & (_ & Hlen) & H0 & _ & Hpos & _)].
    - discriminate Ho.
    - destruct n as [|n'].
      + rewrite H0 by reflexivity. split; [|exact Hi].
        rewrite (@stored_eq _ _ Hs). rewrite Z.add_0_r in Hlen.
        destruct (fst (fault (snd (fault (tape w))))); lia.
      + destruct Hpos as [Hscan _]; [lia|]. split.
        * rewrite (@stored_of_scan _ _ Hscan). exact Hlen.
        * destruct (create_version_table (committed w1))
            as (db & Hc & _ & _ & Hsame).
          rewrite Hc. f_equal. apply Hsame.
          apply (@scan_version_table _ _ Hscan). }
  destruct Hdone as [Hlen Hidem]. split; [exact Hlen|].
  subst run2. unfold UpgradeWith.
  pose proof (getVersion_run (with_tape w1 tp2)) as Hg.
  unfold query_answered in Hq2. cbn [with_tape tape committed calls] in Hg.
  destruct (fault tp2) as [bad1 tp1]. cbn [fst snd] in *.
  destruct (fault tp1) as [bad2 tp3]. cbn [fst snd] in *. subst bad2.
  destruct bad1.
  - rewrite Hg. cbn [fst snd committed calls].
    split; [|auto].
    exists [CCreateVersionTable]. repeat split.
    intros [H | []]. discriminate H.
  - destruct Hg as (db & Hc & _ & _ & _ & Hg).
    rewrite Hidem in Hc. inversion Hc; subst db.
    rewrite Hg, Upgrade_loop_done by exact Hlen.
    cbn [fst snd committed calls].
    split; [|auto].
    exists [CCreateVersionTable; CQueryVersion]. repeat split.
    intros [H | [H | []]]; discriminate H.
Qed.


End Migrator.

(** ** Runs on concrete databases *)

(** On an empty database and a driver without faults, [Upgrade]
    creates the eleven tables in one transaction and leaves the counter
    at 1. *)
Example Upgrade_fresh :
  let run := Upgrade empty_World in
  fst run = Nil /\
  map tdef (committed (snd run)) = catalog /\
  stored_version (committed (snd run)) = 1 /\
  calls (snd run)
  = [CCreateVersionTable; CQueryVersion; CBegin; CMigrate 0; CSetVersion 1;
     CCommit].
Proof. vm_compute. repeat split. Qed.

(** When the creation of [whatsmeow_identity_keys] fails on an engine
    that keeps the transaction usable after a failed statement, step 0
    goes on, returns no error, and is committed: the counter is 1 and
    the table does not exist. *)
Example identity_keys_error_dropped :
  let run := Upgrade identity_keys_fault in
  fst run = Nil /\
  stored_version (committed (snd run)) = 1 /\
  lookup (committed (snd run)) "whatsmeow_identity_keys" = None.
Proof. vm_compute. repeat split. Qed.


(** [Upgrade] run twice on an empty database. *)
Lemma Upgrade_twice_witness :
  let w1 := snd (Upgrade empty_World) in
  let run2 := Upgrade (with_tape w1 []) in
  committed (snd run2) = committed w1 /\
  stored_version (committed (snd run2)) = stored_version (committed w1) /\
  exists c2, calls (snd run2) = calls w1 ++ c2 /\ migrated c2 = [].
Proof.
  cbv zeta.
  assert (Hlen : Z.of_nat (length Upgrades) <= max_int)
    by (vm_compute; discriminate).
  assert (Hsane : 0 <= stored_version (committed empty_World))
    by (vm_compute; discriminate).
  assert (Hrun : UpgradeWith Upgrades empty_World
                 = (Nil, snd (Upgrade empty_World)))
    by (vm_compute; reflexivity).
  assert (Hq : query_answered []) by reflexivity.
  destruct (@Upgrade_twice Upgrades Hlen _ _ [] Hsane Hrun Hq)
    as (_ & (c2 & Hc & Hm & _) & Hdb & Hv & _).
  split; [exact Hdb|]. split; [exact Hv|]. exists c2. split; assumption.
Defined.


(** C5 fails as worded: a second run is not always idle.  When the
    driver fails its counter query, [getVersion] answers 0 without an
    error: after a first upgrade of an empty database the second run
    invokes step 0 again and returns its error; on a database that
    holds only a counter reading 5 the first run returns nil and the
    second commits step 0 and lowers the counter to 1. *)
Lemma Upgrade_twice_query_fault :
  (let run1 := Upgrade empty_World in
   let run2 := Upgrade (with_tape (snd run1) [false; true]) in
   fst run1 = Nil /\
   fst run2 = Err "table already exists"%string /\
   ~ second_run_idle (snd run1) (snd run2)) /\
  (let run1 := Upgrade (version_only 5) in
   let run2 := Upgrade (with_tape (snd run1) [false; true]) in
   fst run1 = Nil /\
   fst run2 = Nil /\
   stored_version (committed (snd run1)) = 5 /\
   stored_version (committed (snd run2)) = 1 /\
   map tdef (committed (snd run2)) = catalog /\
   ~ second_run_idle (snd run1) (snd run2)).
Proof.
  cbv zeta. split.
  - split; [vm_compute; reflexivity|].
    split; [vm_compute; reflexivity|].
    intros ((c2 & Hc2 & Hm) & _).
    assert (Hc : calls (snd (Upgrade (with_tape (snd (Upgrade empty_World))
                                        [false; true])))
                 = calls (snd (Upgrade empty_World))
                   ++ [CCreateVersionTable; CQueryVersion; CBegin;
                       CMigrate 0; CRollback])
      by (vm_compute; reflexivity).
    rewrite Hc in Hc2. apply app_inv_head in Hc2. subst c2.
    cbn in Hm. discriminate Hm.
  - split; [vm_compute; reflexivity|].
    split; [vm_compute; reflexivity|].
    split; [vm_compute; reflexivity|].
    split; [vm_compute; reflexivity|].
    split; [vm_compute; reflexivity|].
    intros (_ & Hv).
    vm_compute in Hv. discriminate Hv.
Qed.


(** What that second application of step 0 comes to: the tables
    exist, the first statement fails, the transaction is rolled back. *)
Example Upgrade_lost_counter :
  let run := Upgrade lost_counter in
  fst run = Err "table already exists"%string /\
  calls (snd run)
  = [CCreateVersionTable; CQueryVersion; CBegin; CMigrate 0; CRollback] /\
  committed (snd run) = committed lost_counter.
Proof. vm_compute. repeat split. Qed.

Local Close Scope Z_scope.

(** A 31-byte noise key is refused by the upgraded schema. *)
Lemma fixed_size_fields_enforced_witness :
  length_enforced upgraded_db "whatsmeow_device" "noise_key" 32.
Proof.
  assert (Hl : lookup upgraded_db "whatsmeow_device"
               = Some (mkTable whatsmeow_device []))
    by (vm_compute; reflexivity).
  assert (Hcat : In (tdef (mkTable whatsmeow_device [])) catalog)
    by (right; left; reflexivity).
  assert (Hfield : In ("whatsmeow_device", "noise_key", 32%Z)%string
                     fixed_size_fields)
    by (left; reflexivity).
  assert (Hadv : ("whatsmeow_device", "noise_key")%string
                 <> ("whatsmeow_device", "adv_key")%string)
    by (intros H; discriminate H).
  exact (proj1 (@fixed_size_fields_enforced _ _ _ _ _ Hl Hcat Hfield Hadv)).
Defined.

(** C8 fails as worded: [adv_key] is among the fields the
    specification gives a length of 32, yet a device row whose
    [adv_key] is one byte long is accepted by the upgraded schema. *)
Lemma adv_key_length_not_enforced :
  In ("whatsmeow_device", "adv_key", 32%Z)%string fixed_size_fields /\
  ~ length_enforced upgraded_db "whatsmeow_device" "adv_key" 32.
Proof.
  split; [vm_compute; tauto|].
  intros Hclaim.
  destruct (Hclaim short_adv_key_device [Byte.x05]) as [e He].
  - vm_compute. reflexivity.
  - intros E. vm_compute in E. discriminate E.
  - vm_compute in He. discriminate He.
Qed.

(** Deleting device alice from the sample database. *)
Lemma delete_device_cascades_witness :
  exists db',
    delete_device sample_db "alice" = inr db' /\
    forall t c, In (t, c) device_keyed ->
      forall r, In r (rows db' t) -> row_get r c <> VText "alice".
Proof.
  assert (Hcat : map tdef sample_db = catalog) by (vm_compute; reflexivity).
  assert (Hpk : pk_ok sample_db = true) by (vm_compute; reflexivity).
  assert (Hfk : fk_ok sample_db = true) by (vm_compute; reflexivity).
  destruct (@delete_device_cascades sample_db "alice" Hcat Hpk Hfk)
    as (db' & Hd & _ & _ & Hall).
  exists db'. split; assumption.
Defined.

(** The rows of bob are all still there. *)
Example delete_device_keeps_others :
  match delete_device sample_db "alice" with
  | inr db' =>
      map (fun t => length (trows t)) db' = [1; 1; 1; 0; 0; 0; 0; 1; 1; 0; 1]
  | inl _ => False
  end.
Proof. vm_compute. reflexivity. Qed.

End SqlStoreFacts.

(** * Further properties of [doHandshake] *)

Module HandshakeMore.
Import Handshake HandshakeFacts.

Section More.
Variables FS NH NS RNG CP : Type.
Variable ext : Externals FS NH NS RNG CP.

(** A 32-byte slice is its own array conversion. *)
Lemma len_32 (o : option bytes) :
  len o = 32 -> exists l, o = Some l /\ length l = 32 /\ array32 o = l.
Proof.
  destruct o as [l|]; cbn [len]; intros H; [|discriminate].
  exists l. split; [reflexivity|]. split; [exact H|]. apply array32_exact, H.
Qed.

(** X5. A handshake that fails at any point up to the comparison of
    the certified key (lines 33 to 89) has written nothing: the client,
    its store included, and the random source are as they were; no key
    was generated, nothing was encrypted, no finish frame was sent and
    the noise handshake was not finished. *)
Theorem doHandshake_untouched_before_keys c f r kp e s' :
  doHandshake ext c f r kp = (Some e, s') ->
  fails_before_store e = true ->
  cli s' = c /\ rng s' = r /\
  existsb is_keygen (trace s') = false /\
  existsb is_Encrypt (trace s') = false /\
  existsb is_SendFrame (trace s') = false /\
  existsb is_Finish (trace s') = false.
Proof.
  intros H Hk. start_run H. split_run H.
  all: try discriminate.
  all: destruct c; repeat split; reflexivity.
Qed.

(** X4. Whatever the peer and the libraries do, [doHandshake] uses the
    frame socket at most twice, in this order: one [SendAndReceiveFrame]
    (line 36), then one [SendFrame] (line 126). *)
Theorem doHandshake_network_calls c f r kp :
  let tr := filter is_network (trace (snd (doHandshake ext c f r kp))) in
  tr = [] \/
  (exists hello, tr = [EvSendAndReceiveFrame hello]) \/
  (exists hello finish,
      tr = [EvSendAndReceiveFrame hello; EvSendFrame finish]).
Proof.
  intros tr. subst tr.
  destruct (doHandshake ext c f r kp) as [res s'] eqn:H.
  start_run H. split_run H.
  all: cbn [snd trace filter is_network]; eauto.
Qed.

(** X3. The noise operations of a run that returns nil, key
    generation left aside, are exactly the thirteen calls of the
    source in source order; both keys taken from the server hello are
    32 bytes long, and the noise key that was encrypted and mixed is
    the one left in the store. *)
Theorem doHandshake_success_sequence c f r kp s' :
  doHandshake ext c f r kp = (None, s') ->
  exists hello serverEphemeral staticCt static certCt noiseKey payload finish,
    filter (fun e => negb (is_keygen e)) (trace s')
    = [ EvStart (NoiseStartPattern ext) (Header ext f);
        EvAuthenticate (Some (Pub kp));
        EvSendAndReceiveFrame hello;
        EvAuthenticate (Some serverEphemeral);
        EvMixSharedSecretIntoKey (Priv kp) serverEphemeral;
        EvDecrypt (Some staticCt);
        EvMixSharedSecretIntoKey (Priv kp) static;
        EvDecrypt (Some certCt);
        EvEncrypt (Pub noiseKey);
        EvMixSharedSecretIntoKey (Priv noiseKey) serverEphemeral;
        EvEncrypt payload;
        EvSendFrame finish;
        EvFinish ] /\
    length serverEphemeral = 32 /\
    length static = 32 /\
    NoiseKey (Store (cli s')) = Some noiseKey.
Proof.
  intros H. start_run H. split_run H.
  all: try discriminate.
  all: match goal with
       | Hc : _ || _ || _ = false |- _ =>
           apply shape_test in Hc; destruct Hc as (Hlen & Hst & Hpl)
       end.
  all: apply len_32 in Hlen; destruct Hlen as (eph & Heph & Hlen32 & Harr).
  all: match goal with
       | Hl : negb (length _ =? 32) = false |- _ => apply length_test in Hl
       end.
  all: rewrite Harr, Heph in *.
  all: match goal with
       | Hs : GetStatic ?x <> None |- _ =>
           destruct (GetStatic x) as [sct|] eqn:Hsct; [|contradiction]
       end.
  all: match goal with
       | Hs : GetPayload ?x <> None |- _ =>
           destruct (GetPayload x) as [cct|] eqn:Hcct; [|contradiction]
       end.
  all: cbn [cli trace Store NoiseKey filter is_keygen negb set_NoiseKey
            set_IdentityKey set_SignedPreKey set_RegistrationID
            set_AdvSecretKey].
  all: do 8 eexists; split; [reflexivity|]; repeat split; eauto.
Qed.

(** X2. After a run that returns nil the expected-disconnect flag is
    cleared, [cli.socket] is the socket made by [nh.Finish] on the
    frame socket, and the store holds a noise key, an identity key, a
    signed pre-key and an adv secret. *)
Theorem doHandshake_success_state c f r kp s' :
  doHandshake ext c f r kp = (None, s') ->
  isExpectedDisconnect (cli s') = false /\
  (exists ns, Finish ext (nh s') (fs s') = inr ns /\
              socket (cli s') = Some ns) /\
  NoiseKey (Store (cli s')) <> None /\
  IdentityKey (Store (cli s')) <> None /\
  SignedPreKey (Store (cli s')) <> None /\
  AdvSecretKey (Store (cli s')) <> None.
Proof.
  intros H. start_run H. split_run H.
  all: try discriminate.
  all: cbn [cli fs nh Store socket isExpectedDisconnect NoiseKey IdentityKey
            SignedPreKey AdvSecretKey set_NoiseKey set_IdentityKey
            set_SignedPreKey set_RegistrationID set_AdvSecretKey].
  all: repeat split; eauto; congruence.
Qed.

(** X9. With a store that already holds its four keys and a non-zero
    registration id, no run, failing or not, changes the store, draws
    from the random source or generates a key. *)
Theorem doHandshake_complete_store_stable c f r kp :
  nothing_missing (Store c) = true ->
  let run := doHandshake ext c f r kp in
  Store (cli (snd run)) = Store c /\
  rng (snd run) = r /\
  existsb is_keygen (trace (snd run)) = false.
Proof.
  intros Hc run. unfold nothing_missing in Hc.
  destruct (NoiseKey (Store c)) as [nk|] eqn:Hnk; [|discriminate].
  destruct (IdentityKey (Store c)) as [ik|] eqn:Hik; [|discriminate].
  destruct (SignedPreKey (Store c)) as [spk|] eqn:Hspk; [|discriminate].
  destruct (AdvSecretKey (Store c)) as [adv|] eqn:Hadv; [|discriminate].
  apply negb_true_iff in Hc.
  destruct (doHandshake ext c f r kp) as [res s'] eqn:H. subst run.
  start_run H. run_with_facts H.
  all: repeat split; reflexivity.
Qed.

(** X8. When [rand.Read] fails (line 138) the store had no adv secret
    before; the finish frame has been sent and the noise handshake
    finished, but [cli.socket] and the expected-disconnect flag are
    not updated, and the store is left holding the 32-byte buffer as
    its adv secret. *)
Theorem doHandshake_adv_secret_failure c f r kp e s' :
  doHandshake ext c f r kp = (Some (ErrGenerateAdvSecret e), s') ->
  AdvSecretKey (Store c) = None /\
  (exists k, AdvSecretKey (Store (cli s')) = Some k /\ length k = 32) /\
  socket (cli s') = socket c /\
  isExpectedDisconnect (cli s') = isExpectedDisconnect c /\
  existsb is_SendFrame (trace s') = true /\
  existsb is_Finish (trace s') = true.
Proof.
  intros H. start_run H. split_run H.
  all: try discriminate.
  all: cbn [cli Store socket isExpectedDisconnect AdvSecretKey
            set_AdvSecretKey fst].
  all: repeat split; try reflexivity; try assumption.
  all: eexists; split; [reflexivity | apply copy_length].
Qed.

(** X7. The static-length error (line 63) is returned exactly when
    the run got as far as decrypting the server static key and the
    plaintext is not 32 bytes long; the length it carries is the
    length of that plaintext; the run stopped right after the
    decryption, with the client unchanged. *)
Theorem doHandshake_static_length c f r kp :
  (forall n s',
     doHandshake ext c f r kp = (Some (ErrStaticLength n), s') ->
     (exists staticDecrypted,
        static_key_decrypted ext f kp staticDecrypted /\
        n = length staticDecrypted) /\
     n <> 32 /\
     cli s' = c /\
     exists hello eph ct,
       trace s'
       = [ EvStart (NoiseStartPattern ext) (Header ext f);
           EvAuthenticate (Some (Pub kp));
           EvSendAndReceiveFrame hello;
           EvAuthenticate (Some eph);
           EvMixSharedSecretIntoKey (Priv kp) eph;
           EvDecrypt (Some ct) ]) /\
  (forall staticDecrypted,
     static_key_decrypted ext f kp staticDecrypted ->
     length staticDecrypted <> 32 ->
     fst (doHandshake ext c f r kp)
     = Some (ErrStaticLength (length staticDecrypted))).
Proof.
  split.
  - intros n s' H. start_run H. split_run H.
    all: try discriminate.
    match goal with
    | Hc : _ || _ || _ = false |- _ =>
        pose proof Hc as Hshape;
        apply shape_test in Hc; destruct Hc as (Hlen & Hst & Hpl)
    end.
    split.
    { eexists. split; [|reflexivity].
      unfold static_key_decrypted, response_received, client_hello,
        nh_after_hello.
      do 5 eexists. apply shape_test in Hshape.
      repeat split; eauto; apply Hshape. }
    apply len_32 in Hlen. destruct Hlen as (eph & Heph & Hlen32 & Harr).
    match goal with
    | Hl : negb (length _ =? 32) = true |- _ =>
        apply negb_true_iff, Nat.eqb_neq in Hl
    end.
    rewrite Harr, Heph in *.
    match goal with
    | Hs : GetStatic ?x <> None |- _ =>
        destruct (GetStatic x) as [sct|] eqn:Hsct; [|contradiction]
    end.
    split; [assumption|]. split; [destruct c; reflexivity|].
    do 3 eexists. reflexivity.
  - intros sd (data & resp & hm & nh1 & nh2
               & (Hm & (f' & Hs) & Hu) & Hshape & Hmix1 & Hdec1) Hlen.
    rewrite <- shape_test in Hshape.
    assert (Hl : negb (length sd =? 32) = true)
      by (apply negb_true_iff, Nat.eqb_neq; exact Hlen).
    unfold client_hello in Hm. unfold nh_after_hello in Hmix1.
    destruct (doHandshake ext c f r kp) as [res s'] eqn:H.
    start_run H. run_with_facts H.
    reflexivity.
Qed.

(** X10. Whenever a finish frame was sent, the payload encrypted into
    it is the marshalled client payload of the store as the run
    leaves it, except for the adv secret, which is generated only
    afterwards (line 137). *)
Theorem doHandshake_payload_store c f r kp :
  let run := doHandshake ext c f r kp in
  existsb is_SendFrame (trace (snd run)) = true ->
  exists payload,
    Marshal_ClientPayload ext
      (GetClientPayload ext
         (payload_store (Store c) (Store (cli (snd run))))) = inr payload /\
    In (EvEncrypt payload) (trace (snd run)).
Proof.
  intros run. subst run.
  destruct c as [[nk ik spk rid adv id pl bn pn ini] sock flag].
  destruct (doHandshake ext _ f r kp) as [res s'] eqn:H.
  start_run H. split_run H.
  all: cbn [snd cli trace Store existsb is_SendFrame orb]; intros Hsent;
    try discriminate Hsent.
  all: eexists; split; [eassumption|].
  all: cbn; auto 20.
Qed.

End More.

(** ** Concrete runs *)

Lemma doHandshake_success_certified_witness :
  socket paired_Client <> None /\
  exists staticDecrypted certDetails,
    certificate_check_reached (scripted honest) tt ephemeral0
      staticDecrypted certDetails /\
    bytes_Equal (GetKey certDetails) (Some staticDecrypted) = true.
Proof.
  assert (H : doHandshake (scripted honest) fresh_Client tt 0 ephemeral0
              = (None,
                 snd (doHandshake (scripted honest) fresh_Client tt 0
                        ephemeral0)))
    by (vm_compute; reflexivity).
  exact (@doHandshake_success_certified _ _ _ _ _ (scripted honest)
           fresh_Client tt 0 ephemeral0 _ H).
Defined.

Lemma doHandshake_success_state_witness :
  isExpectedDisconnect paired_Client = false /\
  AdvSecretKey (Store paired_Client) <> None.
Proof.
  assert (H : doHandshake (scripted honest) fresh_Client tt 0 ephemeral0
              = (None,
                 snd (doHandshake (scripted honest) fresh_Client tt 0
                        ephemeral0)))
    by (vm_compute; reflexivity).
  destruct (@doHandshake_success_state _ _ _ _ _ (scripted honest)
              fresh_Client tt 0 ephemeral0 _ H)
    as (Hf & _ & _ & _ & _ & Ha).
  split; [exact Hf | exact Ha].
Defined.

Lemma doHandshake_success_sequence_witness :
  length
    (filter (fun e => negb (is_keygen e))
       (trace (snd (doHandshake (scripted honest) fresh_Client tt 0
                      ephemeral0)))) = 13.
Proof.
  assert (H : doHandshake (scripted honest) fresh_Client tt 0 ephemeral0
              = (None,
                 snd (doHandshake (scripted honest) fresh_Client tt 0
                        ephemeral0)))
    by (vm_compute; reflexivity).
  destruct (@doHandshake_success_sequence _ _ _ _ _ (scripted honest)
              fresh_Client tt 0 ephemeral0 _ H)
    as (? & ? & ? & ? & ? & ? & ? & ? & Htr & _).
  rewrite Htr. reflexivity.
Defined.

Lemma doHandshake_untouched_before_keys_witness :
  cli (snd (doHandshake (scripted mismatched) fresh_Client tt 0 ephemeral0))
  = fresh_Client.
Proof.
  assert (H : doHandshake (scripted mismatched) fresh_Client tt 0 ephemeral0
              = (Some ErrCertKeyMismatch,
                 snd (doHandshake (scripted mismatched) fresh_Client tt 0
                        ephemeral0)))
    by (vm_compute; reflexivity).
  exact (proj1 (@doHandshake_untouched_before_keys _ _ _ _ _
                  (scripted mismatched) fresh_Client tt 0 ephemeral0 _ _ H
                  eq_refl)).
Defined.

Lemma doHandshake_missing_parts_inv_witness :
  exists data resp hm,
    response_received (scripted malformed) tt ephemeral0 data resp hm
    /\ ~ well_shaped hm.
Proof.
  assert (H : doHandshake (scripted malformed) fresh_Client tt 0 ephemeral0
              = (Some ErrMissingParts,
                 snd (doHandshake (scripted malformed) fresh_Client tt 0
                        ephemeral0)))
    by (vm_compute; reflexivity).
  exact (@doHandshake_missing_parts_inv _ _ _ _ _ (scripted malformed)
           fresh_Client tt 0 ephemeral0 _ H).
Defined.

Lemma doHandshake_static_length_witness :
  (exists staticDecrypted,
     static_key_decrypted (scripted short_static) tt ephemeral0
       staticDecrypted /\
     31 = length staticDecrypted) /\
  cli (snd (doHandshake (scripted short_static) fresh_Client tt 0
              ephemeral0)) = fresh_Client.
Proof.
  assert (H : doHandshake (scripted short_static) fresh_Client tt 0
                ephemeral0
              = (Some (ErrStaticLength 31),
                 snd (doHandshake (scripted short_static) fresh_Client tt 0
                        ephemeral0)))
    by (vm_compute; reflexivity).
  destruct (proj1 (@doHandshake_static_length _ _ _ _ _
                     (scripted short_static) fresh_Client tt 0 ephemeral0)
              _ _ H) as (Hsd & _ & Hc & _).
  split; [exact Hsd | exact Hc].
Defined.

Lemma doHandshake_adv_secret_failure_witness :
  socket (cli (snd (doHandshake no_entropy fresh_Client tt 0 ephemeral0)))
  = None /\
  exists k,
    AdvSecretKey
      (Store (cli (snd (doHandshake no_entropy fresh_Client tt 0
                          ephemeral0)))) = Some k /\ length k = 32.
Proof.
  assert (H : doHandshake no_entropy fresh_Client tt 0 ephemeral0
              = (Some (ErrGenerateAdvSecret "short read"%string),
                 snd (doHandshake no_entropy fresh_Client tt 0 ephemeral0)))
    by (vm_compute; reflexivity).
  destruct (@doHandshake_adv_secret_failure _ _ _ _ _ no_entropy
              fresh_Client tt 0 ephemeral0 _ _ H)
    as (_ & Hk & Hs & _).
  split; [exact Hs | exact Hk].
Defined.

Lemma doHandshake_complete_store_stable_witness :
  Store (cli (snd (doHandshake (scripted honest) paired_Client tt 1
                     ephemeral0)))
  = Store paired_Client.
Proof.
  assert (H : nothing_missing (Store paired_Client) = true)
    by (vm_compute; reflexivity).
  exact (proj1 (@doHandshake_complete_store_stable _ _ _ _ _
                  (scripted honest) paired_Client tt 1 ephemeral0 H)).
Defined.

Lemma doHandshake_payload_store_witness :
  exists payload,
    In (EvEncrypt payload)
       (trace (snd (doHandshake (scripted honest) fresh_Client tt 0
                      ephemeral0))).
Proof.
  assert (H : existsb is_SendFrame
                (trace (snd (doHandshake (scripted honest) fresh_Client tt 0
                               ephemeral0))) = true)
    by (vm_compute; reflexivity).
  destruct (@doHandshake_payload_store _ _ _ _ _ (scripted honest)
              fresh_Client tt 0 ephemeral0 H) as (p & _ & Hin).
  exists p. exact Hin.
Defined.

End HandshakeMore.

(** * Further properties of the schema and of [Upgrade] *)

Module SqlStoreMore.
Import SqlStore SqlStoreFacts.

(** ** Step 0 *)

Lemma lookup_app db1 db2 t :
  lookup (db1 ++ db2) t =
  match lookup db1 t with Some x => Some x | None => lookup db2 t end.
Proof.
  unfold lookup. induction db1 as [|x db1 IH]; cbn [app find]; [reflexivity|].
  destruct (String.eqb (table_name (tdef x)) t); [reflexivity | exact IH].
Qed.

Lemma create_new db def db' :
  create_table db false def = inr db' ->
  lookup db (table_name def) = None /\ db' = db ++ [mkTable def []].
Proof.
  unfold create_table.
  destruct (lookup db (table_name def)); [discriminate|].
  intros H. inversion H. auto.
Qed.

(** X20. Step 0, when it returns nil, has appended its tables, empty
    and in source order, to the transaction and changed nothing that
    was there: either all ten, or the nine other than
    [whatsmeow_identity_keys], whose creation is the one statement
    whose error is never tested. *)
Theorem Upgrades_0_appends tx tp tx' tp' :
  Upgrades_0 tx tp = (None, tx', tp') ->
  tx' = tx ++ new_tables (List.tl catalog)
  \/ tx' = tx ++ new_tables checked_tables.
Proof.
  unfold Upgrades_0, tbind, tret, tx_Exec, exec_stmt. intros H.
  (* statement 1 *)
  destruct (fault tp) as [b1 tp1]. destruct b1; [discriminate H|].
  destruct (create_table tx false whatsmeow_device) as [e|d1] eqn:H1;
    [discriminate H|].
  apply create_new in H1. destruct H1 as [_ ->].
  (* statement 2, unchecked *)
  destruct (fault tp1) as [b2 tp2].
  destruct (if b2 then _ else _) as [[err2 d2] tp2'] eqn:H2 in H.
  assert (Hd2 : tp2' = tp2 /\
                (d2 = tx ++ [mkTable whatsmeow_device []]
                 \/ d2 = (tx ++ [mkTable whatsmeow_device []])
                         ++ [mkTable whatsmeow_identity_keys []])).
  { destruct b2; [inversion H2; auto|].
    destruct (create_table _ false whatsmeow_identity_keys) as [e|d] eqn:Hc;
      inversion H2; subst; auto.
    apply create_new in Hc. destruct Hc as [_ ->]. auto. }
  destruct Hd2 as [-> Hd2]. clear H2.
  repeat (
    match type of H with
    | context [fault ?tp] =>
        let b := fresh "b" in let tq := fresh "tq" in
        destruct (fault tp) as [b tq]; destruct b; [discriminate H|]
    end;
    match type of H with
    | context [create_table ?db false ?def] =>
        let E := fresh "Hc" in
        destruct (create_table db false def) as [e|d] eqn:E;
        [discriminate H|];
        apply create_new in E; destruct E as [_ ->]
    end).
  inversion H; subst; clear H.
  destruct Hd2 as [-> | ->]; [right | left];
    rewrite <- !List.app_assoc; reflexivity.
Qed.

Lemma tx_Exec_create_ok tx def tp tp' :
  fault tp = (false, tp') ->
  lookup tx (table_name def) = None ->
  tx_Exec (CREATE_TABLE false def) tx tp = (None, tx ++ [mkTable def []], tp').
Proof.
  intros Hf Hl. unfold tx_Exec, exec_stmt, create_table.
  rewrite Hf, Hl. reflexivity.
Qed.

Lemma tx_Exec_create_exists tx def tp tp' :
  fault tp = (false, tp') ->
  lookup tx (table_name def) <> None ->
  tx_Exec (CREATE_TABLE false def) tx tp
  = (Some "table already exists"%string, tx, tp').
Proof.
  intros Hf Hl. unfold tx_Exec, exec_stmt, create_table. rewrite Hf.
  destruct (lookup tx (table_name def)); [reflexivity | contradiction].
Qed.

Lemma tx_Exec_fault tx s tp tp' :
  fault tp = (true, tp') ->
  tx_Exec s tx tp = (Some driver_error, tx, tp').
Proof. intros Hf. unfold tx_Exec. rewrite Hf. reflexivity. Qed.

Lemma lookup_extended tx added t :
  lookup tx t = None -> lookup added t = None ->
  lookup (tx ++ added) t = None.
Proof. intros H1 H2. rewrite lookup_app, H1. exact H2. Qed.

(** X21. The error of the second statement of step 0 (line 41) is
    overwritten by the third (line 49): when none of the other nine
    tables exists and the creation of [whatsmeow_identity_keys] fails,
    by a fault of the driver or because that table already exists,
    step 0 returns nil and has created exactly the other nine. *)
Theorem Upgrades_0_drops_identity_keys_error tx tp :
  (forall def, In def checked_tables -> lookup tx (table_name def) = None) ->
  tp = [false; true]
  \/ (tp = [] /\ lookup tx "whatsmeow_identity_keys" <> None) ->
  Upgrades_0 tx tp = (None, tx ++ new_tables checked_tables, []).
Proof.
  intros Hfree Hfail.
  assert (Hnew : forall def added,
             In def checked_tables ->
             lookup added (table_name def) = None ->
             lookup (tx ++ added) (table_name def) = None)
    by (intros def added Hin Hl; apply lookup_extended; auto).
  unfold Upgrades_0, tbind, tret.
  assert (H1 : forall tq tq', fault tq = (false, tq') ->
             tx_Exec (CREATE_TABLE false whatsmeow_device) tx tq
             = (None, tx ++ [mkTable whatsmeow_device []], tq')).
  { intros tq tq' Hf. apply tx_Exec_create_ok; [exact Hf|].
    apply Hfree. cbn; auto. }
  assert (H2 : exists tq,
             True /\
             tx_Exec (CREATE_TABLE false whatsmeow_device) tx tp
             = (None, tx ++ [mkTable whatsmeow_device []], tq) /\
             exists e,
               tx_Exec (CREATE_TABLE false whatsmeow_identity_keys)
                 (tx ++ [mkTable whatsmeow_device []]) tq
               = (Some e, tx ++ [mkTable whatsmeow_device []], [])).
  { destruct Hfail as [-> | [-> Hid]].
    - exists [true]. split; [exact I|]. split; [apply H1; reflexivity|].
      eexists. apply tx_Exec_fault. reflexivity.
    - exists []. split; [exact I|]. split; [apply H1; reflexivity|].
      eexists. apply tx_Exec_create_exists; [reflexivity|].
      rewrite lookup_app. cbn [table_name whatsmeow_identity_keys].
      destruct (lookup tx "whatsmeow_identity_keys");
        [discriminate | contradiction]. }
  destruct H2 as (tq & _ & -> & e & ->). cbn beta iota.
  repeat (erewrite tx_Exec_create_ok;
          [ cbn beta iota
          | reflexivity
          | rewrite <- ?List.app_assoc; apply Hnew;
            [cbn; auto 20 | reflexivity] ]).
  rewrite <- !List.app_assoc. reflexivity.
Qed.

(** ** Constraints of the tables *)

(** A value outside the range of a [CHECK] is refused. *)
Lemma range_check_enforced db t tbl col lo hi r z :
  lookup db t = Some tbl ->
  In col (columns (tdef tbl)) ->
  col_check col = Some (CheckRange lo hi) ->
  row_find r (col_name col) = Some (VInt z) ->
  (z < lo \/ hi <= z)%Z ->
  exists e, insert db t r = inl e.
Proof.
  intros Hl Hin Hcheck Hfind Hout.
  apply (@insert_rejects db t tbl r col Hl Hin).
  rewrite (@row_get_complete (tdef tbl) r (col_name col) (VInt z));
    [|apply in_columns_existsb, Hin | exact Hfind].
  unfold column_ok. rewrite Hcheck. cbn [check_ok].
  assert (Hb : ((lo <=? z)%Z && (z <? hi)%Z) = false).
  { destruct Hout as [Ho | Ho].
    - apply Z.leb_gt in Ho. rewrite Ho. reflexivity.
    - apply Z.ltb_ge in Ho. rewrite Ho. apply andb_false_r. }
  rewrite Hb. apply andb_false_r.
Qed.

(** X22. The three range constraints of step 0 (lines 20, 26 and 51)
    hold of every stored row: an insert whose registration id is
    outside [0, 2^32), or whose signed pre-key id or pre-key id is
    outside [0, 2^24), is refused. *)
Theorem range_fields_enforced db t c lo hi tbl r z :
  lookup db t = Some tbl ->
  In (tdef tbl) catalog ->
  In (t, c, lo, hi) range_fields ->
  row_find r c = Some (VInt z) ->
  (z < lo \/ hi <= z)%Z ->
  exists e, insert db t r = inl e.
Proof.
  intros Hl Hcat Hin Hfind Hout.
  unfold range_fields in Hin. cbn [In] in Hin.
  destruct Hin as [Hin | [Hin | [Hin | []]]]; inversion Hin; subst t c lo hi;
    pose proof (@lookup_name db _ tbl Hl) as Hname.
  - assert (Hdef : tdef tbl = whatsmeow_device)
      by (apply catalog_names_unique; [exact Hcat | cbn; auto 20 | exact Hname]).
    eapply (@range_check_enforced db _ tbl
              (mkColumn "registration_id" BIGINT not_null
                 (Some (CheckRange 0 4294967296)) None));
      [exact Hl | rewrite Hdef; cbn; auto 20 | reflexivity | exact Hfind
       | exact Hout].
  - assert (Hdef : tdef tbl = whatsmeow_device)
      by (apply catalog_names_unique; [exact Hcat | cbn; auto 20 | exact Hname]).
    eapply (@range_check_enforced db _ tbl
              (mkColumn "signed_pre_key_id" INTEGER not_null
                 (Some (CheckRange 0 16777216)) None));
      [exact Hl | rewrite Hdef; cbn; auto 20 | reflexivity | exact Hfind
       | exact Hout].
  - assert (Hdef : tdef tbl = whatsmeow_pre_keys)
      by (apply catalog_names_unique; [exact Hcat | cbn; auto 20 | exact Hname]).
    eapply (@range_check_enforced db _ tbl
              (mkColumn "key_id" INTEGER nullable
                 (Some (CheckRange 0 16777216)) None));
      [exact Hl | rewrite Hdef; cbn; auto 20 | reflexivity | exact Hfind
       | exact Hout].
Qed.

(** X23. A device row (lines 17 to 37) is refused when any of its ten
    [NOT NULL] columns without a default is absent or NULL; in a row
    that is stored, an omitted platform, business name or push name
    reads as the empty string. *)
Theorem device_row_requirements db tbl r :
  lookup db "whatsmeow_device" = Some tbl ->
  tdef tbl = whatsmeow_device ->
  (forall c, In c mandatory_device_columns ->
     row_find r c = None \/ row_find r c = Some VNull ->
     exists e, insert db "whatsmeow_device" r = inl e) /\
  (forall db', insert db "whatsmeow_device" r = inr db' ->
     exists row,
       rows db' "whatsmeow_device" = rows db "whatsmeow_device" ++ [row] /\
       forall c, In c defaulted_device_columns ->
         row_find r c = None -> row_get row c = VText "").
Proof.
  intros Hl Hdef. split.
  - intros c Hc Hmiss.
    assert (Hnull : row_get (complete_row whatsmeow_device r) c = VNull).
    { unfold mandatory_device_columns in Hc. cbn [In] in Hc.
      repeat (destruct Hc as [Hc | Hc];
        [ subst c; cbn; unfold row_get;
          destruct Hmiss as [-> | ->]; reflexivity | ]).
      contradiction. }
    unfold mandatory_device_columns in Hc. cbn [In] in Hc.
    repeat (destruct Hc as [Hc | Hc];
      [ subst c;
        match goal with
        | |- context [insert _ _ _] =>
            idtac
        end | ]); try contradiction.
    all: match type of Hnull with
         | row_get _ ?c = _ =>
             let col := eval cbv in
               (find (fun x => String.eqb (col_name x) c)
                  (columns whatsmeow_device)) in
             match col with
             | Some ?k =>
                 apply (@insert_rejects db "whatsmeow_device" tbl r k Hl);
                 [ rewrite Hdef; cbn; auto 20
                 | rewrite Hdef; cbn [col_name]; rewrite Hnull; reflexivity ]
             end
         end.
  - intros db' Hins. unfold insert in Hins. rewrite Hl, Hdef in Hins.
    destruct (negb (forallb _ r)); [discriminate|].
    destruct (negb (forallb _ (columns whatsmeow_device))); [discriminate|].
    destruct (existsb _ (trows tbl) && _); [discriminate|].
    destruct (negb (forallb _ (foreign_keys whatsmeow_device)));
      [discriminate|].
    inversion Hins; subst; clear Hins.
    exists (complete_row whatsmeow_device r). split.
    + rewrite (@rows_update_rows db "whatsmeow_device" tbl _ Hl). reflexivity.
    + intros c Hc Hnone. unfold defaulted_device_columns in Hc. cbn [In] in Hc.
      repeat (destruct Hc as [Hc | Hc];
        [ subst c; cbn; unfold row_get; rewrite Hnone; reflexivity | ]).
      contradiction.
Qed.

(** ** Deleting a device *)

Section Keep.
Variable jid : string.

Lemma victim_jid r : victim jid r = true -> row_get r "jid" = VText jid.
Proof. unfold victim. apply Value_eqb_eq. Qed.

(** A row that does not name the device references no deleted device
    row. *)
Lemma unrelated_survives c devices rs r :
  In r rs ->
  row_get r c <> VText jid ->
  In r (survivors (to_device c) (filter (victim jid) devices) rs).
Proof.
  intros Hr Hne. unfold survivors. apply filter_In. split; [exact Hr|].
  apply negb_true_iff.
  destruct (existsb _ _) eqn:E; [|reflexivity].
  apply existsb_exists in E. destruct E as (p & Hp & Href).
  apply filter_In in Hp. destruct Hp as [_ Hp]. apply victim_jid in Hp.
  unfold references, to_device, cascade_fk in Href.
  cbn [fk_columns fk_ref_columns key map key_eqb forallb] in Href.
  apply andb_true_iff in Href. destruct Href as [_ Href].
  rewrite andb_true_r in Href. apply Value_eqb_eq in Href.
  congruence.
Qed.

Lemma unrelated_mac_survives devices versions macs r :
  In r macs ->
  row_get r "jid" <> VText jid ->
  In r (survivors to_version
          (filter (fun x => existsb (references (to_device "jid") x)
                              (filter (victim jid) devices)) versions)
          macs).
Proof.
  intros Hr Hne. unfold survivors. apply filter_In. split; [exact Hr|].
  apply negb_true_iff.
  destruct (existsb _ _) eqn:E; [|reflexivity].
  apply existsb_exists in E. destruct E as (p & Hp & Href).
  apply filter_In in Hp. destruct Hp as [_ Hp].
  apply existsb_exists in Hp. destruct Hp as (d & Hd & Hpd).
  apply filter_In in Hd. destruct Hd as [_ Hd]. apply victim_jid in Hd.
  unfold references, to_device, to_version, cascade_fk in Href, Hpd.
  cbn [fk_columns fk_ref_columns key map key_eqb forallb] in Href, Hpd.
  apply andb_true_iff in Href. destruct Href as [_ Href].
  apply andb_true_iff in Href. destruct Href as [Href _].
  apply andb_true_iff in Hpd. destruct Hpd as [_ Hpd].
  rewrite andb_true_r in Hpd.
  apply Value_eqb_eq in Href. apply Value_eqb_eq in Hpd.
  congruence.
Qed.

End Keep.

(** X24. The cascades declared by step 0 reach no further than the
    deleted device: deleting one device row leaves the version
    counter, the rows of every other device, and every dependent row
    that names another device where they were. *)
Theorem delete_device_keeps_unrelated db jid :
  map tdef db = catalog ->
  exists db',
    delete_device db jid = inr db' /\
    rows db' "whatsmeow_version" = rows db "whatsmeow_version" /\
    (forall r, In r (rows db "whatsmeow_device") ->
               row_get r "jid" <> VText jid ->
               In r (rows db' "whatsmeow_device")) /\
    forall t c, In (t, c) device_keyed ->
      forall r, In r (rows db t) -> row_get r c <> VText jid ->
                In r (rows db' t).
Proof.
  intros Hcat.
  destruct (@catalog_shape _ Hcat)
    as (r0 & r1 & r2 & r3 & r4 & r5 & r6 & r7 & r8 & r9 & r10 & ->).
  eexists. split; [apply delete_device_computed|].
  split; [reflexivity|]. split.
  - intros r Hr Hne. cbn in Hr |- *. apply filter_In. split; [exact Hr|].
    apply negb_true_iff. destruct (victim jid r) eqn:E; [|reflexivity].
    apply victim_jid in E. contradiction.
  - intros t c Hin. unfold device_keyed in Hin. cbn [In] in Hin.
    repeat (destruct Hin as [Hin | Hin];
      [ inversion Hin; subst t c; clear Hin; intros r Hr Hne;
        cbn in Hr |- *;
        first [ apply unrelated_survives; assumption
              | apply unrelated_mac_survives; assumption ] | ]).
    contradiction.
Qed.

(** ** The version counter *)

Local Open Scope Z_scope.

(** X17. [getVersion] changes the database in one way at most: when
    there is no version table it creates an empty one; tables that
    exist, rows included, are never touched. *)
Theorem getVersion_only_creates w version err w' :
  getVersion w = (version, err, w') ->
  committed w' = committed w
  \/ lookup (committed w) "whatsmeow_version" = None /\
     committed w' = committed w ++ [mkTable whatsmeow_version []].
Proof.
  intros H. unfold getVersion, called in H. cbn [tape committed calls] in H.
  destruct (fault (tape w)) as [b1 tp1].
  destruct b1.
  { inversion H; subst. left. reflexivity. }
  unfold create_table in H. cbn [table_name whatsmeow_version] in H.
  destruct (lookup (committed w) "whatsmeow_version") eqn:Hl;
    cbn [tape committed calls] in H;
    destruct (fault tp1) as [b2 tp2]; inversion H; subst; cbn [committed];
    auto.
Qed.

(** X18. After a [setVersion] that returns nil the version table
    holds exactly one row, whatever it held before, and that row
    carries the new version; the set of tables and every other table
    are unchanged. *)
Theorem setVersion_replaces x tx tp tx' tp' :
  setVersion x tx tp = (None, tx', tp') ->
  (exists row, rows tx' "whatsmeow_version" = [row] /\
               row_get row "version" = VInt x) /\
  map tdef tx' = map tdef tx /\
  forall t, t <> "whatsmeow_version"%string -> lookup tx' t = lookup tx t.
Proof.
  unfold setVersion, tbind, tx_Exec, tret, exec_stmt, delete_all, insert.
  intros H.
  destruct (fault tp) as [bad1 tp1]. destruct bad1; [discriminate|].
  destruct (lookup tx "whatsmeow_version") as [tbl|] eqn:Hl; [|discriminate].
  destruct (fault tp1) as [bad2 tp2]. destruct bad2; [discriminate|].
  rewrite lookup_update_rows, Hl in H. cbn [option_map tdef trows] in H.
  destruct (negb (forallb _ _)) eqn:Hcols in H; [discriminate|].
  destruct (negb (forallb _ (columns (tdef tbl)))) in H; [discriminate|].
  cbn [existsb andb] in H.
  destruct (negb (forallb _ (foreign_keys (tdef tbl)))) in H; [discriminate|].
  inversion H; subst; clear H.
  split; [|split].
  - eexists. split.
    + unfold rows. rewrite !lookup_update_rows, Hl.
      cbn [option_map trows app]. reflexivity.
    + apply negb_false_iff in Hcols. cbn [forallb fst] in Hcols.
      rewrite andb_true_r in Hcols.
      apply row_get_complete; auto.
  - unfold update_rows. rewrite !map_map.
    apply map_ext. intros a.
    destruct (String.eqb (table_name (tdef a)) "whatsmeow_version");
      cbn [tdef];
      try destruct (String.eqb (table_name (tdef a)) "whatsmeow_version");
      reflexivity.
  - intros t Ht. rewrite !lookup_update_rows_other by exact Ht. reflexivity.
Qed.

(** X19. Round trip: what [setVersion] wrote is what [getVersion]
    reads back, when the driver answers its two calls. *)
Theorem setVersion_getVersion x tx tp tx' tp' tp2 cs :
  setVersion x tx tp = (None, tx', tp') ->
  in_int64 x = true ->
  no_fault 2 tp2 ->
  getVersion (mkWorld tx' tp2 cs)
  = (x, None,
     mkWorld tx' (snd (fault (snd (fault tp2))))
       (cs ++ [CCreateVersionTable; CQueryVersion])).
Proof.
  intros Hset Hx (H1 & H2 & _).
  pose proof (@setVersion_written _ _ _ _ _ Hset Hx) as Hscan.
  pose proof (getVersion_run (mkWorld tx' tp2 cs)) as Hg.
  cbn [tape committed calls] in Hg.
  destruct (fault tp2) as [b1 tp1]. cbn [fst snd] in *. subst b1.
  destruct (fault tp1) as [b2 tp3]. cbn [fst snd] in *. subst b2.
  destruct Hg as (db & _ & _ & _ & Hsame & Hg). rewrite Hg.
  assert (Hdb : db = tx')
    by (apply Hsame; apply (@scan_version_table _ _ Hscan)).
  subst db. unfold stored_version. rewrite Hscan. reflexivity.
Qed.

(** ** Runs of [Upgrade] *)

(** With a version table in place and a driver that answers,
    [getVersion] reads the counter and leaves the database alone. *)
Lemma getVersion_reads w :
  lookup (committed w) "whatsmeow_version" <> None ->
  no_fault 2 (tape w) ->
  getVersion w
  = (stored_version (committed w), None,
     mkWorld (committed w) (after_calls 2 (tape w))
       (calls w ++ [CCreateVersionTable; CQueryVersion])).
Proof.
  intros Hl (H1 & H2 & _).
  pose proof (getVersion_run w) as Hg. cbn [after_calls].
  destruct (fault (tape w)) as [b1 tp1]. cbn [fst snd] in *. subst b1.
  destruct (fault tp1) as [b2 tp2]. cbn [fst snd] in *. subst b2.
  destruct Hg as (db & _ & _ & _ & Hsame & Hg). rewrite Hg.
  rewrite (Hsame Hl). reflexivity.
Qed.

(** The iteration whose step goes through but whose counter write
    fails. *)
Lemma Upgrade_loop_setVersion_fails (ups : list upgradeFunc) fuel j w tp f
    tx tp1 e tx' tp2 :
  j < Z.of_nat (length ups) ->
  fault (tape w) = (false, tp) ->
  index ups j = Some f ->
  f (committed w) tp = (None, tx, tp1) ->
  setVersion (j + 1) tx tp1 = (Some e, tx', tp2) ->
  Upgrade_loop ups (S fuel) j w
  = (Err e,
     mkWorld (committed w) tp2
       (calls w ++ [CBegin; CMigrate j; CSetVersion (j + 1)])).
Proof.
  intros Hj Hf Hidx Hstep Hset. cbn [Upgrade_loop].
  apply Z.ltb_lt in Hj. rewrite Hj.
  unfold called. cbn [committed tape calls].
  rewrite Hf, Hidx, Hstep, Hset.
  rewrite <- !List.app_assoc. reflexivity.
Qed.

(** X11. When the step at the counter's position returns an error,
    [Upgrade] returns that very error after exactly five calls:
    the two of [getVersion], [Begin], the step and [Rollback]; no
    later step runs, the counter is not written, and the database is
    as it was. *)
Theorem Upgrade_step_error (ups : list upgradeFunc) w v f e tx tp' :
  lookup (committed w) "whatsmeow_version" <> None ->
  no_fault 3 (tape w) ->
  stored_version (committed w) = v ->
  v < Z.of_nat (length ups) ->
  index ups v = Some f ->
  f (committed w) (after_calls 3 (tape w)) = (Some e, tx, tp') ->
  UpgradeWith ups w
  = (Err e,
     mkWorld (committed w) (snd (fault tp'))
       (calls w ++ [CCreateVersionTable; CQueryVersion; CBegin; CMigrate v;
                    CRollback])).
Proof.
  intros Hl (H1 & H2 & H3 & _) Hv Hlt Hidx Hstep.
  unfold UpgradeWith.
  rewrite (@getVersion_reads w Hl (conj H1 (conj H2 I))), Hv.
  destruct (Z.to_nat (Z.of_nat (length ups) - v)) as [|fuel] eqn:Hfuel;
    [lia|].
  cbn [after_calls] in *.
  destruct (fault (snd (fault (snd (fault (tape w)))))) as [b3 tp3] eqn:Hf3.
  cbn [fst snd] in *. subst b3.
  erewrite Upgrade_loop_step_fails;
    [ | exact Hlt
      | cbn [tape]; exact Hf3
      | exact Hidx
      | cbn [committed]; exact Hstep ].
  cbn [committed calls]. rewrite <- List.app_assoc. reflexivity.
Qed.

(** X12. When the step returns nil but [setVersion] fails, [Upgrade]
    returns that error at once (line 198): the transaction is neither
    committed nor rolled back, and the database keeps neither the
    step's tables nor a new counter. *)
Theorem Upgrade_counter_write_error (ups : list upgradeFunc) w v f tx tp1 e
    tx' tp2 :
  lookup (committed w) "whatsmeow_version" <> None ->
  no_fault 3 (tape w) ->
  stored_version (committed w) = v ->
  v < Z.of_nat (length ups) ->
  index ups v = Some f ->
  f (committed w) (after_calls 3 (tape w)) = (None, tx, tp1) ->
  setVersion (v + 1) tx tp1 = (Some e, tx', tp2) ->
  UpgradeWith ups w
  = (Err e,
     mkWorld (committed w) tp2
       (calls w ++ [CCreateVersionTable; CQueryVersion; CBegin; CMigrate v;
                    CSetVersion (v + 1)])).
Proof.
  intros Hl (H1 & H2 & H3 & _) Hv Hlt Hidx Hstep Hset.
  unfold UpgradeWith.
  rewrite (@getVersion_reads w Hl (conj H1 (conj H2 I))), Hv.
  destruct (Z.to_nat (Z.of_nat (length ups) - v)) as [|fuel] eqn:Hfuel;
    [lia|].
  cbn [after_calls] in *.
  destruct (fault (snd (fault (snd (fault (tape w)))))) as [b3 tp3] eqn:Hf3.
  cbn [fst snd] in *. subst b3.
  erewrite Upgrade_loop_setVersion_fails;
    [ | exact Hlt
      | cbn [tape]; exact Hf3
      | exact Hidx
      | cbn [committed]; exact Hstep
      | exact Hset ].
  cbn [committed calls]. rewrite <- List.app_assoc. reflexivity.
Qed.



(** X15. A run of [Upgrade] that returns nil leaves the counter at the
    number of steps, and its calls are those of [getVersion] followed,
    for each step from the counter it found, by [Begin], the step,
    [setVersion] and [Commit], in order and nothing else. *)
Theorem Upgrade_nil (ups : list upgradeFunc) w w1 :
  Z.of_nat (length ups) <= max_int ->
  0 <= stored_version (committed w) <= Z.of_nat (length ups) ->
  query_answered (tape w) ->
  UpgradeWith ups w = (Nil, w1) ->
  stored_version (committed w1) = Z.of_nat (length ups) /\
  exists c,
    calls w1 = calls w ++ CCreateVersionTable :: CQueryVersion :: c /\
    c = flat_map tx_calls
          (seqZ (stored_version (committed w))
             (Z.to_nat (Z.of_nat (length ups) - stored_version (committed w)))).
Proof.
  intros Hmax [Hsane Hle] Hq Hrun. unfold query_answered in Hq.
  destruct (@UpgradeWith_run _ _ _ _ Hmax Hsane Hrun)
    as [(_ & Ho & _)
       | (_ & v & w0 & n & rest & _ & Hv & Hs & _ & _ & Hc & (-> & Hlen) & H0
          & _ & Hpos & _)]; [discriminate Ho|].
  rewrite Hq in Hv. subst v.
  set (v := stored_version (committed w)) in *.
  assert (Hn : Z.of_nat n = Z.of_nat (length ups) - v).
  { destruct n as [|n']; [lia|]. destruct Hpos as [_ Hle2]; lia. }
  split.
  - destruct n as [|n'].
    + rewrite H0 by reflexivity. rewrite (@stored_eq _ _ Hs). fold v. lia.
    + destruct Hpos as [Hscan _]; [lia|].
      rewrite (@stored_of_scan _ _ Hscan). lia.
  - eexists. split; [|reflexivity].
    rewrite Hc, List.app_nil_r. rewrite <- Hn, Nat2Z.id. reflexivity.
Qed.

(** X16. A database that has the device table but whose counter reads
    0, for want of a counter row, cannot be upgraded: step 0 is run
    again, its first statement fails, and [Upgrade] returns
    [table already exists] after a rollback, whatever else the
    database holds. *)
Theorem Upgrade_reapplication_fails w :
  lookup (committed w) "whatsmeow_device" <> None ->
  stored_version (committed w) = 0%Z ->
  no_fault 4 (tape w) ->
  exists w',
    Upgrade w = (Err "table already exists"%string, w') /\
    calls w' = calls w ++ [CCreateVersionTable; CQueryVersion; CBegin;
                           CMigrate 0; CRollback] /\
    (committed w' = committed w
     \/ committed w' = committed w ++ [mkTable whatsmeow_version []]).
Proof.
  intros Hdev Hzero (H1 & H2 & H3 & H4 & _).
  unfold Upgrade, UpgradeWith.
  pose proof (getVersion_run w) as Hg.
  destruct (fault (tape w)) as [b1 tp1]. cbn [fst snd] in *. subst b1.
  destruct (fault tp1) as [b2 tp2]. cbn [fst snd] in *. subst b2.
  destruct Hg as (db & Hcreate & _ & _ & _ & Hg). rewrite Hg, Hzero.
  assert (Hframe : db = committed w
                   \/ db = committed w ++ [mkTable whatsmeow_version []]).
  { unfold create_table in Hcreate.
    destruct (lookup (committed w) (table_name whatsmeow_version));
      inversion Hcreate; auto. }
  destruct (fault tp2) as [b3 tp3] eqn:Hf3. cbn [fst snd] in *. subst b3.
  destruct (fault tp3) as [b4 tp4] eqn:Hf4. cbn [fst snd] in *. subst b4.
  assert (Hdb : lookup db "whatsmeow_device" <> None).
  { destruct Hframe as [-> | ->]; [exact Hdev|].
    rewrite lookup_app.
    destruct (lookup (committed w) "whatsmeow_device");
      [discriminate | contradiction]. }
  assert (Hstep : Upgrades_0 db tp3
                  = (Some "table already exists"%string, db, tp4)).
  { unfold Upgrades_0, tbind, tret.
    rewrite (@tx_Exec_create_exists db whatsmeow_device tp3 tp4 Hf4 Hdb).
    reflexivity. }
  change (Z.to_nat (Z.of_nat (length Upgrades) - 0)) with 1%nat.
  erewrite Upgrade_loop_step_fails;
    [ | cbn; lia | cbn [tape]; exact Hf3 | reflexivity
      | cbn [committed]; exact Hstep ].
  eexists. split; [reflexivity|]. cbn [committed calls].
  split; [rewrite <- List.app_assoc; reflexivity | exact Hframe].
Qed.

(** ** Concrete runs *)

Lemma Upgrades_0_appends_witness :
  snd (fst (Upgrades_0 [] [])) = [] ++ new_tables (List.tl catalog)
  \/ snd (fst (Upgrades_0 [] [])) = [] ++ new_tables checked_tables.
Proof.
  assert (H : Upgrades_0 [] []
              = (None, snd (fst (Upgrades_0 [] [])), snd (Upgrades_0 [] [])))
    by (vm_compute; reflexivity).
  exact (@Upgrades_0_appends _ _ _ _ H).
Defined.

Lemma Upgrades_0_drops_identity_keys_error_witness :
  Upgrades_0 [] [false; true] = (None, [] ++ new_tables checked_tables, []).
Proof.
  apply (@Upgrades_0_drops_identity_keys_error [] [false; true]).
  - intros def _. reflexivity.
  - left. reflexivity.
Defined.

Lemma range_fields_enforced_witness :
  exists e,
    insert upgraded_db "whatsmeow_device"
      [("registration_id"%string, VInt 4294967296)] = inl e.
Proof.
  assert (Hl : lookup upgraded_db "whatsmeow_device"
               = Some (mkTable whatsmeow_device []))
    by (vm_compute; reflexivity).
  apply (@range_fields_enforced upgraded_db "whatsmeow_device"
           "registration_id" 0 4294967296 (mkTable whatsmeow_device [])
           [("registration_id"%string, VInt 4294967296)] 4294967296 Hl).
  - cbn. auto.
  - cbn. auto.
  - reflexivity.
  - right. lia.
Defined.

Lemma device_row_requirements_witness :
  exists e, insert upgraded_db "whatsmeow_device" [] = inl e.
Proof.
  assert (Hl : lookup upgraded_db "whatsmeow_device"
               = Some (mkTable whatsmeow_device []))
    by (vm_compute; reflexivity).
  apply (proj1 (@device_row_requirements upgraded_db
                  (mkTable whatsmeow_device []) [] Hl eq_refl)
           "registration_id"%string).
  - cbn. auto.
  - left. reflexivity.
Defined.

Lemma delete_device_keeps_unrelated_witness :
  exists db',
    delete_device sample_db "alice" = inr db' /\
    rows db' "whatsmeow_version" = rows sample_db "whatsmeow_version".
Proof.
  assert (Hcat : map tdef sample_db = catalog) by (vm_compute; reflexivity).
  destruct (@delete_device_keeps_unrelated sample_db "alice" Hcat)
    as (db' & Hd & Hv & _).
  exists db'. split; assumption.
Defined.

Lemma getVersion_only_creates_witness :
  committed (snd (getVersion empty_World)) = committed empty_World
  \/ lookup (committed empty_World) "whatsmeow_version" = None /\
     committed (snd (getVersion empty_World))
     = committed empty_World ++ [mkTable whatsmeow_version []].
Proof.
  destruct (getVersion empty_World) as [[version err] w'] eqn:H.
  exact (@getVersion_only_creates _ _ _ _ H).
Defined.

Lemma setVersion_replaces_witness :
  exists row,
    rows (snd (fst (setVersion 7 two_counters []))) "whatsmeow_version"
    = [row] /\
    row_get row "version" = VInt 7.
Proof.
  assert (H : setVersion 7 two_counters []
              = (None, snd (fst (setVersion 7 two_counters [])),
                 snd (setVersion 7 two_counters [])))
    by (vm_compute; reflexivity).
  exact (proj1 (@setVersion_replaces _ _ _ _ _ H)).
Defined.

Lemma setVersion_getVersion_witness :
  getVersion (mkWorld (snd (fst (setVersion 7 two_counters []))) [] [])
  = (7, None,
     mkWorld (snd (fst (setVersion 7 two_counters [])))
       (snd (fault (snd (fault []))))
       ([] ++ [CCreateVersionTable; CQueryVersion])).
Proof.
  assert (H : setVersion 7 two_counters []
              = (None, snd (fst (setVersion 7 two_counters [])),
                 snd (setVersion 7 two_counters [])))
    by (vm_compute; reflexivity).
  apply (@setVersion_getVersion _ _ _ _ _ [] [] H).
  - reflexivity.
  - cbn. auto.
Defined.

Lemma Upgrade_step_error_witness :
  fst (Upgrade (counter_at 0)) = Err "table already exists"%string.
Proof.
  assert (Hl : lookup (committed (counter_at 0)) "whatsmeow_version" <> None).
  { intros Hx. vm_compute in Hx. discriminate Hx. }
  assert (Hf : no_fault 3 (tape (counter_at 0))) by (cbn; auto).
  assert (Hv : stored_version (committed (counter_at 0)) = 0)
    by (vm_compute; reflexivity).
  assert (Hlt : 0 < Z.of_nat (length Upgrades)) by (cbn; lia).
  assert (Hstep : Upgrades_0 (committed (counter_at 0))
                    (after_calls 3 (tape (counter_at 0)))
                  = (Some "table already exists"%string,
                     committed (counter_at 0), []))
    by (vm_compute; reflexivity).
  unfold Upgrade.
  rewrite (@Upgrade_step_error Upgrades (counter_at 0) 0 Upgrades_0 _ _ _
             Hl Hf Hv Hlt eq_refl Hstep).
  reflexivity.
Defined.

Lemma Upgrade_counter_write_error_witness :
  fst (Upgrade counter_write_fault) = Err driver_error /\
  committed (snd (Upgrade counter_write_fault))
  = [mkTable whatsmeow_version []].
Proof.
  assert (Hl : lookup (committed counter_write_fault) "whatsmeow_version"
               <> None).
  { intros Hx. vm_compute in Hx. discriminate Hx. }
  assert (Hf : no_fault 3 (tape counter_write_fault)) by (cbn; auto).
  assert (Hv : stored_version (committed counter_write_fault) = 0)
    by (vm_compute; reflexivity).
  assert (Hlt : 0 < Z.of_nat (length Upgrades)) by (cbn; lia).
  assert (Hstep : Upgrades_0 (committed counter_write_fault)
                    (after_calls 3 (tape counter_write_fault))
                  = (None,
                     [mkTable whatsmeow_version []]
                       ++ new_tables (List.tl catalog),
                     [true]))
    by (vm_compute; reflexivity).
  assert (Hset : setVersion (0 + 1)
                   ([mkTable whatsmeow_version []]
                      ++ new_tables (List.tl catalog)) [true]
                 = (Some driver_error,
                    [mkTable whatsmeow_version []]
                      ++ new_tables (List.tl catalog), []))
    by (vm_compute; reflexivity).
  unfold Upgrade.
  rewrite (@Upgrade_counter_write_error Upgrades counter_write_fault 0
             Upgrades_0 _ _ _ _ _ Hl Hf Hv Hlt eq_refl Hstep Hset).
  split; reflexivity.
Defined.



Lemma Upgrade_nil_witness :
  stored_version (committed (snd (UpgradeWith Upgrades empty_World))) = 1.
Proof.
  assert (Hmax : Z.of_nat (length Upgrades) <= max_int)
    by (vm_compute; discriminate).
  assert (Hv : stored_version (committed empty_World) = 0)
    by (vm_compute; reflexivity).
  assert (Hsane : 0 <= stored_version (committed empty_World)
                  <= Z.of_nat (length Upgrades))
    by (rewrite Hv; cbn; lia).
  assert (Hq : query_answered (tape empty_World)) by reflexivity.
  assert (Hrun : UpgradeWith Upgrades empty_World
                 = (Nil, snd (UpgradeWith Upgrades empty_World)))
    by (vm_compute; reflexivity).
  exact (proj1 (@Upgrade_nil Upgrades empty_World _ Hmax Hsane Hq Hrun)).
Defined.

Lemma Upgrade_reapplication_fails_witness :
  exists w',
    Upgrade lost_counter = (Err "table already exists"%string, w').
Proof.
  assert (Hd : lookup (committed lost_counter) "whatsmeow_device" <> None).
  { intros Hx. vm_compute in Hx. discriminate Hx. }
  assert (Hv : stored_version (committed lost_counter) = 0)
    by (vm_compute; reflexivity).
  assert (Hf : no_fault 4 (tape lost_counter)) by (cbn; auto).
  destruct (@Upgrade_reapplication_fails lost_counter Hd Hv Hf)
    as (w' & Hrun & _).
  exists w'. exact Hrun.
Defined.

End SqlStoreMore.
